(** * explib: experiment profiles, ensembles and the worker pool

    A shallow embedding of [explib/base.py] (Python 2) and the properties
    of its profile identity / caching protocol, of the ensemble expansion
    and of the pool's per-task wrapper.

    Python objects live in a heap of mutable cells addressed by references,
    so that sharing (one metrics list handed to every profile, one setting
    instance bound again and again) is visible.  Statements are functions
    from a world to a world and an outcome: a value, or a raised exception.
    The abstract method [expSetting.run] and the helpers imported from
    [explib/utils.py] are the fields of a type class. *)

From stdpp Require Import gmap strings list pretty sorting.
From Stdlib Require Import ZArith Ascii.

Local Open Scope string_scope.
Local Open Scope list_scope.

(* ===================================================================== *)
(** * Part I: definitions                                                  *)
(* ===================================================================== *)

(** ** hashlib.md5 (RFC 1321), on bytes held as [Z] *)

Module MD5.
Local Open Scope Z_scope.

Definition w32 (x : Z) : Z := x mod 2 ^ 32.
Definition not32 (x : Z) : Z := Z.lxor x 0xffffffff.
Definition rotl (x s : Z) : Z :=
  w32 (Z.lor (Z.shiftl x s) (Z.shiftr x (32 - s))).

Definition sines : list Z :=
  [ 0xd76aa478; 0xe8c7b756; 0x242070db; 0xc1bdceee;
    0xf57c0faf; 0x4787c62a; 0xa8304613; 0xfd469501;
    0x698098d8; 0x8b44f7af; 0xffff5bb1; 0x895cd7be;
    0x6b901122; 0xfd987193; 0xa679438e; 0x49b40821;
    0xf61e2562; 0xc040b340; 0x265e5a51; 0xe9b6c7aa;
    0xd62f105d; 0x02441453; 0xd8a1e681; 0xe7d3fbc8;
    0x21e1cde6; 0xc33707d6; 0xf4d50d87; 0x455a14ed;
    0xa9e3e905; 0xfcefa3f8; 0x676f02d9; 0x8d2a4c8a;
    0xfffa3942; 0x8771f681; 0x6d9d6122; 0xfde5380c;
    0xa4beea44; 0x4bdecfa9; 0xf6bb4b60; 0xbebfbc70;
    0x289b7ec6; 0xeaa127fa; 0xd4ef3085; 0x04881d05;
    0xd9d4d039; 0xe6db99e5; 0x1fa27cf8; 0xc4ac5665;
    0xf4292244; 0x432aff97; 0xab9423a7; 0xfc93a039;
    0x655b59c3; 0x8f0ccc92; 0xffeff47d; 0x85845dd1;
    0x6fa87e4f; 0xfe2ce6e0; 0xa3014314; 0x4e0811a1;
    0xf7537e82; 0xbd3af235; 0x2ad7d2bb; 0xeb86d391 ].

Definition shifts : list Z :=
  [ 7; 12; 17; 22; 7; 12; 17; 22; 7; 12; 17; 22; 7; 12; 17; 22;
    5;  9; 14; 20; 5;  9; 14; 20; 5;  9; 14; 20; 5;  9; 14; 20;
    4; 11; 16; 23; 4; 11; 16; 23; 4; 11; 16; 23; 4; 11; 16; 23;
    6; 10; 15; 21; 6; 10; 15; 21; 6; 10; 15; 21; 6; 10; 15; 21 ].

(** [n] bytes of [x], least significant first. *)
Fixpoint le_bytes (n : nat) (x : Z) : list Z :=
  match n with
  | O => []
  | S n' => x mod 256 :: le_bytes n' (x / 256)
  end.

Fixpoint of_le_bytes (bs : list Z) : Z :=
  match bs with
  | [] => 0
  | b :: bs' => b + 256 * of_le_bytes bs'
  end.

Definition pad (msg : list Z) : list Z :=
  let len := Z.of_nat (length msg) in
  msg ++ [0x80] ++ replicate (Z.to_nat ((55 - len) mod 64)) 0
      ++ le_bytes 8 ((8 * len) mod 2 ^ 64).

Fixpoint groups (fuel size : nat) (l : list Z) : list (list Z) :=
  match fuel with
  | O => []
  | S fuel' =>
      match l with
      | [] => []
      | _ => take size l :: groups fuel' size (drop size l)
      end
  end.

Definition words (block : list Z) : list Z :=
  of_le_bytes <$> groups 16 4 block.

Definition state : Type := Z * Z * Z * Z.

Definition init : state := (0x67452301, 0xefcdab89, 0x98badcfe, 0x10325476).

Definition step (m : list Z) (st : state) (i : nat) : state :=
  let '(a, b, c, d) := st in
  let iz := Z.of_nat i in
  let '(f, g) :=
    if iz <? 16 then (Z.lor (Z.land b c) (Z.land (not32 b) d), iz)
    else if iz <? 32 then
      (Z.lor (Z.land d b) (Z.land (not32 d) c), (5 * iz + 1) mod 16)
    else if iz <? 48 then (Z.lxor (Z.lxor b c) d, (3 * iz + 5) mod 16)
    else (Z.lxor c (Z.lor b (not32 d)), (7 * iz) mod 16) in
  let f' := w32 (f + a + default 0 (sines !! i)
                       + default 0 (m !! Z.to_nat g)) in
  (d, w32 (b + rotl f' (default 0 (shifts !! i))), b, c).

Definition compress (st : state) (block : list Z) : state :=
  let '(a, b, c, d) := st in
  let '(a', b', c', d') := foldl (step (words block)) st (seq 0 64) in
  (w32 (a + a'), w32 (b + b'), w32 (c + c'), w32 (d + d')).

Definition digest (msg : list Z) : list Z :=
  let p := pad msg in
  let '(a, b, c, d) := foldl compress init (groups (length p) 64 p) in
  le_bytes 4 a ++ le_bytes 4 b ++ le_bytes 4 c ++ le_bytes 4 d.

Definition hex_digit (x : Z) : ascii :=
  default "0"%char
    (String.list_ascii_of_string "0123456789abcdef" !! Z.to_nat x).

Definition hex_byte (b : Z) : list ascii :=
  [hex_digit (b / 16); hex_digit (b mod 16)].

Definition bytes_of_string (s : string) : list Z :=
  (fun c => Z.of_N (N_of_ascii c)) <$> String.list_ascii_of_string s.

(** [hashlib.md5(); update(s); hexdigest()] *)
Definition hexdigest (s : string) : string :=
  String.string_of_list_ascii (mbind hex_byte (digest (bytes_of_string s))).

End MD5.

(** ** Values, exceptions and the object heap *)

(** The values option fields hold, and what a setting's run returns. *)
Inductive value : Type :=
  | VNone
  | VBool (b : bool)
  | VInt (n : Z)
  | VStr (s : string).

(** [str(v)], as ['%s' % v] renders it. *)
Definition str_value (v : value) : string :=
  match v with
  | VNone => "None"
  | VBool true => "True"
  | VBool false => "False"
  | VInt n => pretty n
  | VStr s => s
  end.

Inductive exn : Type :=
  | KeyError (msg : string)
  | AttributeError
  | ValueError
  | IOError
  | OtherError (what : string).

Inductive outcome (A : Type) : Type :=
  | Ok (a : A)
  | Raise (e : exn).
Arguments Ok {A} a.
Arguments Raise {A} e.

Definition ref : Type := nat.

(** A keyword dictionary [**kwargs], in the order [iteritems()] lists it. *)
Definition kwargs : Type := list (string * value).

Inductive obj : Type :=
  | OOption (fields : gmap string value)
      (** an [Option]: its [__dict__] *)
  | OList (items : list ref)
      (** a Python list of objects *)
  | OComponent (cls : string) (opts : ref)
      (** an [expDataset] or [expModel] instance: [_opts] *)
  | OMetric (cls : string) (opts : ref) (values : list value)
      (** an [expMetric] instance: [_opts], [values] *)
  | OSetting (cls : string) (opts : ref)
             (dataset model : option ref) (metrics : ref)
      (** an [expSetting] instance: [_opts], [dataset], [model], [metrics] *).

(** The record [expProfile.run] hands to [savepkl]; options are held by
    reference, as in the source. *)
Record options : Type := {
  opt_dataset : ref;
  opt_model : ref;
  opt_setting : ref;
  opt_metrics : list ref
}.

Record result : Type := {
  Options : options;
  Metrics : list (ref * list value);
  Others : value
}.

(** What is on disk under a path. *)
Inductive node : Type :=
  | Dir
  | File (pickled : string).

(** The part of the world user code and the helpers of [utils] act on. *)
Record Store : Type := {
  heap : gmap ref obj;
  files : gmap string node
}.

Inductive level : Type := INFO | WARNING | ERROR.

Record log_record : Type := {
  lvl : level;
  msg : string;
  exc_info : option exn
}.

(** Calls into collaborators, in the order they are made. *)
Inductive call : Type :=
  | CallSetup (setting dataset model metrics : ref)
  | CallRun (setting : ref)
  | CallSave (r : result) (filename : string)
  | CallCheckDir (dirname : string).

Record World : Type := {
  store : Store;
  log : list log_record;
  calls : list call
}.

(** ** Statements: world in, world and outcome out *)

Definition M (A : Type) : Type := World -> World * outcome A.

Definition ret {A} (a : A) : M A := fun w => (w, Ok a).
Definition raise {A} (e : exn) : M A := fun w => (w, Raise e).
Definition bind {A B} (c : M A) (k : A -> M B) : M B :=
  fun w =>
    match c w with
    | (w', Ok a) => k a w'
    | (w', Raise e) => (w', Raise e)
    end.

(** [try: c except <handles>: h] *)
Definition try_except {A} (c : M A) (handles : exn -> bool) (h : exn -> M A)
  : M A :=
  fun w =>
    match c w with
    | (w', Raise e) => if handles e then h e w' else (w', Raise e)
    | r => r
    end.

Declare Scope py_scope.
Delimit Scope py_scope with py.
Notation "x <- c ;; k" := (bind c (fun x => k))
  (at level 100, c at next level, right associativity) : py_scope.
Notation "c ;;; k" := (bind c (fun _ => k))
  (at level 100, right associativity) : py_scope.
Local Open Scope py_scope.

Definition set_heap (h : gmap ref obj) (w : World) : World :=
  {| store := {| heap := h; files := files (store w) |};
     log := log w; calls := calls w |}.

Definition alloc (o : obj) : M ref := fun w =>
  let r := fresh (dom (heap (store w))) in
  (set_heap (<[r := o]> (heap (store w))) w, Ok r).

Definition load (r : ref) : M obj := fun w =>
  match heap (store w) !! r with
  | Some o => (w, Ok o)
  | None => (w, Raise AttributeError)
  end.

Definition assign (r : ref) (o : obj) : M unit := fun w =>
  (set_heap (<[r := o]> (heap (store w))) w, Ok tt).

Definition logging (l : level) (m : string) (e : option exn) : M unit :=
  fun w =>
    ({| store := store w;
        log := log w ++ [{| lvl := l; msg := m; exc_info := e |}];
        calls := calls w |}, Ok tt).

Definition record_call (c : call) : M unit := fun w =>
  ({| store := store w; log := log w; calls := calls w ++ [c] |}, Ok tt).

(** Run a collaborator, which sees and changes the store only. *)
Definition extern {A} (f : Store -> Store * outcome A) : M A := fun w =>
  let '(s', r) := f (store w) in
  ({| store := s'; log := log w; calls := calls w |}, r).

Fixpoint mapM {A B} (f : A -> M B) (l : list A) : M (list B) :=
  match l with
  | [] => ret []
  | x :: l' => y <- f x ;; ys <- mapM f l' ;; ret (y :: ys)
  end.

(** [c] leaves every world as it found it. *)
Definition reads {A} (c : M A) : Prop := ∀ w, (c w).1 = w.

(** ** Strings *)

(** [sep.join(l)] *)
Fixpoint join (sep : string) (l : list string) : string :=
  match l with
  | [] => EmptyString
  | [x] => x
  | x :: l' => x +:+ sep +:+ join sep l'
  end.

(** [s[n:]] *)
Fixpoint str_drop (n : nat) (s : string) : string :=
  match n, s with
  | O, _ => s
  | S _, EmptyString => EmptyString
  | S n', String _ s' => str_drop n' s'
  end.

(** ['%3d' % n]: decimal, right-justified in three columns. *)
Definition fmt_3d (n : nat) : string :=
  let d := pretty n in
  String.concat EmptyString (replicate (3 - String.length d) " ") +:+ d.

Definition ends_with_slash (s : string) : bool :=
  match last (String.list_ascii_of_string s) with
  | Some c => bool_decide (c = "/"%char)
  | None => false
  end.

(** [os.path.join(a, b)] (posixpath), for a [b] that is not absolute. *)
Definition os_path_join (a b : string) : string :=
  if bool_decide (a = EmptyString) || ends_with_slash a then a +:+ b
  else a +:+ "/" +:+ b.

(** [os.path.exists(path)] *)
Definition os_path_exists (path : string) : M bool := fun w =>
  (w, Ok (bool_decide (is_Some (files (store w) !! path)))).

(** ** class Option *)

Module Option.

Abbreviation dict := (gmap string value).

(** [dict(pairs)] and [d.update] with keywords [kw]: a later pair wins. *)
Definition dict_update (d : dict) (kw : kwargs) : dict :=
  foldl (fun d kv => <[kv.1 := kv.2]> d) d kw.

(** [Option.__init__], the keywords given as the dictionary they are:
    [self.__dict__.update] on the empty dictionary of a new object. *)
Definition __init__ (kw : dict) : M ref :=
  alloc (OOption kw).

Definition key_le (x y : string * value) : Prop := String.leb x.1 y.1 = true.

#[global] Instance key_le_dec (x y : string * value) : Decision (key_le x y).
Proof. unfold key_le. apply _. Defined.

(** [sorted(self.__dict__.iteritems())]: the keys of a dictionary are
    distinct, so the pairs are ordered by key alone. *)
Definition sorted_pairs (d : dict) : list (string * value) :=
  merge_sort key_le (map_to_list d).

(** [__str__] on the dictionary of the object. *)
Definition render (d : dict) : string :=
  let kv_str :=
    join ", " ((fun x => x.1 +:+ "=" +:+ str_value x.2) <$> sorted_pairs d) in
  "Option(" +:+ kv_str +:+ ")".

Definition fields (self : ref) : M dict :=
  o <- load self ;;
  match o with
  | OOption d => ret d
  | _ => raise AttributeError
  end.

Definition __str__ (self : ref) : M string :=
  d <- fields self ;; ret (render d).

(** The loop of [update] on the dictionary: the dictionary it leaves, and
    how the loop ended. *)
Fixpoint update_loop (d : dict) (kw : kwargs) : dict * outcome unit :=
  match kw with
  | [] => (d, Ok tt)
  | (k, v) :: kw' =>
      if bool_decide (is_Some (d !! k)) then update_loop (<[k := v]> d) kw'
      else (d, Raise (KeyError ("'" +:+ k +:+ "' is not a valid parameter.")))
  end.

(** [k in self.__dict__] for every key of the keywords. *)
Definition known (d : dict) (kw : kwargs) : Prop :=
  ∀ k, k ∈ kw.*1 → is_Some (d !! k).

Definition update (self : ref) (kw : kwargs) : M unit :=
  d <- fields self ;;
  let '(d', r) := update_loop d kw in
  assign self (OOption d') ;;;
  match r with
  | Ok _ => ret tt
  | Raise e => raise e
  end.

End Option.

(** ** Collaborators

    What [base.py] calls but does not define: the configuration file read
    at import, the abstract method of a setting, and two helpers of
    [explib/utils.py].  They see and change the store, never the log. *)

Class Collaborators : Type := {
  (** [config_parser.items(name)] for a section of
      [explib/DefaultOption.conf], each value already passed through
      [eval]; [None] when there is no such section. *)
  config_items : string -> option (list (string * value));
  (** [expSetting.run] of the setting instance [self]. *)
  setting_run : ref -> Store -> Store * outcome value;
  (** [utils.savepkl(obj, filename)] *)
  savepkl : result -> string -> Store -> Store * outcome unit;
  (** [utils._check_dir(dirname)] *)
  _check_dir : string -> Store -> Store * outcome unit
}.

(** [utils.ParamsGrid]: an enumerable collection of parameter sets, with
    [len] the number of parameter sets it enumerates. *)
Module ParamsGrid.

Definition t : Type := list kwargs.

(** Modelled from the spec: [ParamsGrid()] is defined in
    [explib/utils.py], which is not among the sources; section 4.3 gives
    the default grid as exactly one empty parameter set. *)
Definition default : t := [[]].

End ParamsGrid.

(** ** getDefaultOption and class expBase *)

Definition roles : list string := ["Dataset"; "Model"; "Metric"; "Setting"].

(** One round of the loop over [roles]. *)
Definition strip_role (name possible : string) : string :=
  if String.prefix possible (str_drop 3 name)
  then str_drop (3 + String.length possible) name
  else name.

Definition getDefaultOption `{Collaborators} (name : string) : M ref :=
  new_dict <-
    match config_items name with
    | None =>
        logging INFO ("Cannot get default option of " +:+ name +:+ ".") None ;;;
        ret (∅ : Option.dict)
    | Some [] => raise ValueError
    | Some items => ret (Option.dict_update ∅ items)
    end ;;
  let name := foldl strip_role name roles in
  Option.__init__ (<["name" := VStr name]> new_dict).

(** [x._opts] *)
Definition get_opts (x : ref) : M ref :=
  o <- load x ;;
  match o with
  | OComponent _ opts | OMetric _ opts _ | OSetting _ opts _ _ _ => ret opts
  | _ => raise AttributeError
  end.

Module expBase.

(** [expBase.__init__] for an instance of class [cls]: the [_opts] it
    leaves in the instance. *)
Definition __init__ `{Collaborators} (cls : string) (kw : kwargs) : M ref :=
  opts <- getDefaultOption cls ;;
  Option.update opts kw ;;;
  ret opts.

(** Instantiating a subclass of [expDataset] or [expModel], neither of
    which adds to [expBase.__init__]. *)
Definition new `{Collaborators} (cls : string) (kw : kwargs) : M ref :=
  opts <- __init__ cls kw ;;
  alloc (OComponent cls opts).

End expBase.

Module expMetric.

Definition __init__ `{Collaborators} (cls : string) (kw : kwargs) : M ref :=
  opts <- expBase.__init__ cls kw ;;
  alloc (OMetric cls opts []).

End expMetric.

Module expSetting.

Definition __init__ `{Collaborators} (cls : string) (kw : kwargs) : M ref :=
  opts <- expBase.__init__ cls kw ;;
  metrics <- alloc (OList []) ;;
  alloc (OSetting cls opts None None metrics).

Definition setup (self dataset model metrics : ref) : M unit :=
  o <- load self ;;
  match o with
  | OSetting cls opts _ _ _ =>
      assign self (OSetting cls opts (Some dataset) (Some model) metrics)
  | _ => raise AttributeError
  end.

Definition run `{Collaborators} (self : ref) : M value :=
  extern (setting_run self).

Definition metric_result (metric : ref) : M (ref * list value) :=
  o <- load metric ;;
  match o with
  | OMetric _ opts values => ret (opts, values)
  | _ => raise AttributeError
  end.

Definition list_items (l : ref) : M (list ref) :=
  o <- load l ;;
  match o with
  | OList items => ret items
  | _ => raise AttributeError
  end.

Definition get_metrics_result (self : ref) : M (list (ref * list value)) :=
  o <- load self ;;
  match o with
  | OSetting _ _ _ _ metrics =>
      items <- list_items metrics ;;
      mapM metric_result items
  | _ => raise AttributeError
  end.

End expSetting.

(** ** class expProfile *)

Module expProfile.

Record t : Type := {
  dataset : ref;
  model : ref;
  metrics : ref;
  setting : option ref;
  save_dir : string;
  overwrite : bool
}.

Definition get_options (self : t) : M options :=
  d <- get_opts (dataset self) ;;
  m <- get_opts (model self) ;;
  s <- match setting self with
       | Some s => get_opts s
       | None => raise AttributeError
       end ;;
  items <- expSetting.list_items (metrics self) ;;
  ms <- mapM get_opts items ;;
  ret {| opt_dataset := d; opt_model := m; opt_setting := s;
         opt_metrics := ms |}.

Definition opts_list (o : options) : list ref :=
  [opt_dataset o; opt_model o; opt_setting o] ++ opt_metrics o.

(** [map(str, opts_list)] *)
Definition rendered (o : options) : M (list string) :=
  mapM Option.__str__ (opts_list o).

(** The string handed to [encoder.update]. *)
Definition message (o : options) : M string :=
  strs <- rendered o ;;
  ret (join ";" strs).

(** [encoder.hexdigest()] of [run]: the fingerprint. *)
Definition fingerprint (self : t) : M string :=
  o <- get_options self ;;
  m <- message o ;;
  ret (MD5.hexdigest m).

Definition is_IOError (e : exn) : bool :=
  match e with IOError => true | _ => false end.

(** Lines 160 to 170: bind the setting, run it, collect and save. *)
Definition run_and_save `{Collaborators}
    (self : t) (o : options) (filename : string) : M unit :=
  match setting self with
  | None => raise AttributeError
  | Some s =>
      record_call (CallSetup s (dataset self) (model self) (metrics self)) ;;;
      expSetting.setup s (dataset self) (model self) (metrics self) ;;;
      record_call (CallRun s) ;;;
      setting_result <- expSetting.run s ;;
      metrics_result <- expSetting.get_metrics_result s ;;
      let result := {| Options := o; Metrics := metrics_result;
                       Others := setting_result |} in
      try_except
        (record_call (CallSave result filename) ;;;
         extern (savepkl result filename) ;;;
         logging INFO ("'" +:+ filename +:+ "' saved.") None)
        is_IOError
        (fun _ => logging ERROR ("IOError when saving '" +:+ filename +:+ "'")
                          None)
  end.

Definition run `{Collaborators} (self : t) : M unit :=
  o <- get_options self ;;
  m <- message o ;;
  let filename := os_path_join (save_dir self) (MD5.hexdigest m) in
  skip <- (if overwrite self then ret false else os_path_exists filename) ;;
  if skip
  then logging WARNING ("'" +:+ filename +:+ "' already exists, skip.") None
  else run_and_save self o filename.

End expProfile.

(** ** class expEnsemble *)

Module expEnsemble.

(** The [imap] object of [add_model] and [add_dataset], an iterator: the
    class it instantiates and the parameter sets it has not reached. *)
Record source : Type := {
  factory : string;
  pending : list kwargs
}.

Record t : Type := {
  models : list source;
  datasets : list source;
  metrics : ref;
  setting : option ref;
  save_dir : string;
  overwrite : bool;
  _n_models : nat;
  _n_datasets : nat
}.

Definition __init__ (save_dir : string) (overwrite : bool) : M t :=
  metrics <- alloc (OList []) ;;
  ret {| models := []; datasets := []; metrics := metrics; setting := None;
         save_dir := save_dir; overwrite := overwrite;
         _n_models := 0; _n_datasets := 0 |}.

Definition __len__ (self : t) : nat := _n_models self * _n_datasets self.

(** [para_grid or ParamsGrid()]: [None] and a grid of length zero are
    false. *)
Definition or_default (para_grid : option ParamsGrid.t) : ParamsGrid.t :=
  match para_grid with
  | Some (para :: grid) => para :: grid
  | _ => ParamsGrid.default
  end.

Definition add_model (self : t) (model : string)
    (para_grid : option ParamsGrid.t) : t :=
  let para_grid := or_default para_grid in
  {| models := models self ++ [{| factory := model; pending := para_grid |}];
     datasets := datasets self;
     metrics := metrics self; setting := setting self;
     save_dir := save_dir self; overwrite := overwrite self;
     _n_models := _n_models self + max 1 (length para_grid);
     _n_datasets := _n_datasets self |}.

Definition add_dataset (self : t) (dataset : string)
    (para_grid : option ParamsGrid.t) : t :=
  let para_grid := or_default para_grid in
  {| models := models self;
     datasets :=
       datasets self ++ [{| factory := dataset; pending := para_grid |}];
     metrics := metrics self; setting := setting self;
     save_dir := save_dir self; overwrite := overwrite self;
     _n_models := _n_models self;
     _n_datasets := _n_datasets self + max 1 (length para_grid) |}.

(** [self.metrics.extend(args)]: the list object is changed in place. *)
Definition add_metrics (self : t) (args : list ref) : M unit :=
  items <- expSetting.list_items (metrics self) ;;
  assign (metrics self) (OList (items ++ args)).

Definition set_setting (self : t) (setting : ref) : t :=
  {| models := models self; datasets := datasets self;
     metrics := metrics self; setting := Some setting;
     save_dir := save_dir self; overwrite := overwrite self;
     _n_models := _n_models self; _n_datasets := _n_datasets self |}.

(** Running one [imap] iterator to its end: the instances it made, and the
    parameter sets still pending (none, unless a constructor raised). *)
Fixpoint drain `{Collaborators} (cls : string) (pending : list kwargs)
    (w : World) : World * list kwargs * outcome (list ref) :=
  match pending with
  | [] => (w, [], Ok [])
  | para :: pending' =>
      match expBase.new cls para w with
      | (w', Raise e) => (w', pending', Raise e)
      | (w', Ok x) =>
          let '(w'', rest, r) := drain cls pending' w' in
          (w'', rest,
           match r with Ok xs => Ok (x :: xs) | Raise e => Raise e end)
      end
  end.

(** [tuple] of the [chain] over the sources, as [product] takes it. *)
Fixpoint chain `{Collaborators} (sources : list source) (w : World)
  : World * list source * outcome (list ref) :=
  match sources with
  | [] => (w, [], Ok [])
  | s :: sources' =>
      let '(w', rest, r) := drain (factory s) (pending s) w in
      let s' := {| factory := factory s; pending := rest |} in
      match r with
      | Raise e => (w', s' :: sources', Raise e)
      | Ok xs =>
          let '(w'', sources'', r') := chain sources' w' in
          (w'', s' :: sources'',
           match r' with Ok ys => Ok (xs ++ ys) | Raise e => Raise e end)
      end
  end.

Definition with_sources (self : t) (ms ds : list source) : t :=
  {| models := ms; datasets := ds;
     metrics := metrics self; setting := setting self;
     save_dir := save_dir self; overwrite := overwrite self;
     _n_models := _n_models self; _n_datasets := _n_datasets self |}.

Definition profile (self : t) (model dataset : ref) : expProfile.t :=
  {| expProfile.dataset := dataset; expProfile.model := model;
     expProfile.metrics := metrics self; expProfile.setting := setting self;
     expProfile.save_dir := save_dir self;
     expProfile.overwrite := overwrite self |}.

(** [product(models, datasets)], each pair made a profile. *)
Definition pairings (self : t) (ms ds : list ref) : list expProfile.t :=
  m ← ms; d ← ds; [profile self m d].

(** [list(self)]: the generator of [__iter__] run to its end.  [product]
    first exhausts its first argument, then its second. *)
Definition __iter__ `{Collaborators} (self : t) (w : World)
  : World * t * outcome (list expProfile.t) :=
  let '(w1, models', r1) := chain (models self) w in
  match r1 with
  | Raise e => (w1, with_sources self models' (datasets self), Raise e)
  | Ok ms =>
      let '(w2, datasets', r2) := chain (datasets self) w1 in
      (w2, with_sources self models' datasets',
       match r2 with
       | Raise e => Raise e
       | Ok ds => Ok (pairings self ms ds)
       end)
  end.

End expEnsemble.

(** ** class expPool *)

(** [_wrapper((i, foo))]: every exception of [foo.run()] is handled. *)
Definition _wrapper `{Collaborators} (args : nat * expProfile.t) : M unit :=
  let '(i, foo) := args in
  logging INFO ("Exp " +:+ fmt_3d i +:+ " Begins...") None ;;;
  try_except (expProfile.run foo) (fun _ => true)
    (fun e => logging ERROR "Exp %3d:" (Some e)) ;;;
  logging INFO ("Exp " +:+ fmt_3d i +:+ " Done!") None.

Module expPool.

(** What [add] accepts: an object with a [save_dir]. *)
Inductive task : Type :=
  | Single (p : expProfile.t)
  | Ensemble (e : expEnsemble.t).

Record t : Type := {
  n_workers : nat;
  tasks : list task;
  dirs : gset string
}.

Definition __init__ (n_workers : nat) : t :=
  {| n_workers := n_workers; tasks := []; dirs := ∅ |}.

Definition task_save_dir (profiles : task) : string :=
  match profiles with
  | Single p => expProfile.save_dir p
  | Ensemble e => expEnsemble.save_dir e
  end.

Definition add (self : t) (profiles : task) : t :=
  {| n_workers := n_workers self;
     tasks := tasks self ++ [profiles];
     dirs := dirs self ∪ {[task_save_dir profiles]} |}.

Definition task_len (profiles : task) : nat :=
  match profiles with
  | Single _ => 1
  | Ensemble e => expEnsemble.__len__ e
  end.

Definition __len__ (self : t) : nat := sum_list (task_len <$> tasks self).

(** The [chain] over [self.tasks] made a list, as [pool.map] takes its
    argument. *)
Fixpoint flatten `{Collaborators} (ts : list task) (w : World)
  : World * list task * outcome (list expProfile.t) :=
  match ts with
  | [] => (w, [], Ok [])
  | Single p :: ts' =>
      let '(w', ts'', r) := flatten ts' w in
      (w', Single p :: ts'',
       match r with Ok ps => Ok (p :: ps) | Raise e => Raise e end)
  | Ensemble e :: ts' =>
      let '(w', e', r) := expEnsemble.__iter__ e w in
      match r with
      | Raise x => (w', Ensemble e' :: ts', Raise x)
      | Ok ps =>
          let '(w'', ts'', r') := flatten ts' w' in
          (w'', Ensemble e' :: ts'',
           match r' with Ok qs => Ok (ps ++ qs) | Raise x => Raise x end)
      end
  end.

Definition check_dir `{Collaborators} (dirname : string) : M unit :=
  record_call (CallCheckDir dirname) ;;;
  extern (_check_dir dirname).

(** [run]: the workers of [pool.map] are taken one after the other, in
    the order of the tasks. *)
Definition run `{Collaborators} (self : t) (w : World)
  : World * t * outcome unit :=
  match mapM check_dir (elements (dirs self)) w with
  | (w1, Raise e) => (w1, self, Raise e)
  | (w1, Ok _) =>
      let '(w2, _) :=
        logging INFO ("# Experiments: " +:+ fmt_3d (__len__ self)) None w1 in
      let '(w3, tasks', r) := flatten (tasks self) w2 in
      let self' := {| n_workers := n_workers self; tasks := tasks';
                      dirs := dirs self |} in
      match r with
      | Raise e => (w3, self', Raise e)
      | Ok ps =>
          match mapM _wrapper (imap (fun i p => (i, p)) ps) w3 with
          | (w4, Raise e) => (w4, self', Raise e)
          | (w4, Ok _) =>
              let '(w5, _) :=
                logging INFO "All Experiments are Done!" None w4 in
              (w5, self', Ok tt)
          end
      end
  end.

End expPool.

(** ** Scripts of calls on an ensemble *)

Inductive ensemble_call : Type :=
  | AddModel (model : string) (para_grid : option ParamsGrid.t)
  | AddDataset (dataset : string) (para_grid : option ParamsGrid.t)
  | SetSetting (setting : ref).

Definition ensemble_step (e : expEnsemble.t) (c : ensemble_call)
  : expEnsemble.t :=
  match c with
  | AddModel model para_grid => expEnsemble.add_model e model para_grid
  | AddDataset dataset para_grid => expEnsemble.add_dataset e dataset para_grid
  | SetSetting setting => expEnsemble.set_setting e setting
  end.

Definition ensemble_script (e : expEnsemble.t) (cs : list ensemble_call)
  : expEnsemble.t :=
  foldl ensemble_step e cs.

(** The size of the grid a caller passes: [None] counts for zero. *)
Definition grid_size (para_grid : option ParamsGrid.t) : nat :=
  match para_grid with
  | None => 0
  | Some g => length g
  end.

Definition model_variants (cs : list ensemble_call) : nat :=
  sum_list (c ← cs;
            match c with AddModel _ g => [max 1 (grid_size g)] | _ => [] end).

Definition dataset_variants (cs : list ensemble_call) : nat :=
  sum_list (c ← cs;
            match c with AddDataset _ g => [max 1 (grid_size g)] | _ => [] end).

(** The (class, parameter set) pairs a list of sources still has to
    instantiate, in the order [chain] reaches them. *)
Definition variants (sources : list expEnsemble.source)
  : list (string * kwargs) :=
  s ← sources; para ← expEnsemble.pending s; [(expEnsemble.factory s, para)].

(** [sep] does not occur in [s]. *)
Definition free_of (sep : ascii) (s : string) : Prop :=
  sep ∉ String.list_ascii_of_string s.

(** An [imap] iterator that has reached its end. *)
Definition exhausted (s : expEnsemble.source) : expEnsemble.source :=
  {| expEnsemble.factory := expEnsemble.factory s;
     expEnsemble.pending := [] |}.

(** The dictionary [getDefaultOption] builds for a class name, when it
    builds one. *)
Definition default_fields `{Collaborators} (name : string)
  : option Option.dict :=
  let named := <["name" := VStr (foldl strip_role name roles)]> in
  match config_items name with
  | None => Some (named ∅)
  | Some [] => None
  | Some items => Some (named (Option.dict_update ∅ items))
  end.

(** [x] is an instance of class [v.1] made with the keywords [v.2]: its
    options are the defaults of the class, updated. *)
Definition instance_of `{Collaborators} (w : World) (x : ref)
    (v : string * kwargs) : Prop :=
  ∃ opts d,
    default_fields v.1 = Some d
    ∧ Option.known d v.2
    ∧ heap (store w) !! x = Some (OComponent v.1 opts)
    ∧ heap (store w) !! opts = Some (OOption (Option.dict_update d v.2)).

(** The new objects [xs] are instances made from [vs], one for one: all
    there in [w'], none there in [w], no two the same. *)
Definition made `{Collaborators} (w w' : World) (xs : list ref)
    (vs : list (string * kwargs)) : Prop :=
  Forall2 (instance_of w') xs vs
  ∧ Forall (λ x, heap (store w) !! x = None) xs
  ∧ NoDup xs.

(** ** Concrete collaborators and inputs *)

Module Demo.

Definition world : World :=
  {| store := {| heap := ∅; files := ∅ |}; log := []; calls := [] |}.

(** One section of defaults: [[expModelRidge] alpha = 1]. *)
Definition config_items (name : string) : option (list (string * value)) :=
  if bool_decide (name = "expModelRidge") then Some [("alpha", VInt 1)]
  else None.

Definition record_one (h : gmap ref obj) (x : ref) : gmap ref obj :=
  match h !! x with
  | Some (OMetric cls opts values) =>
      <[x := OMetric cls opts (values ++ [VInt 1])]> h
  | _ => h
  end.

(** The run of a setting records one value with every metric it is bound
    to; the run of a setting of class [expSettingBroken] raises. *)
Definition setting_run (self : ref) (s : Store) : Store * outcome value :=
  match heap s !! self with
  | Some (OSetting cls _ _ _ metrics) =>
      if bool_decide (cls = "expSettingBroken")
      then (s, Raise (OtherError "broken"))
      else
        match heap s !! metrics with
        | Some (OList items) =>
            ({| heap := foldl record_one (heap s) items; files := files s |},
             Ok VNone)
        | _ => (s, Raise AttributeError)
        end
  | _ => (s, Raise AttributeError)
  end.

(** Saving fails with [IOError] on a full disk, marked by a file [full]. *)
Definition savepkl (r : result) (filename : string) (s : Store)
  : Store * outcome unit :=
  if bool_decide (is_Some (files s !! "full")) then (s, Raise IOError)
  else ({| heap := heap s; files := <[filename := File "pickle"]> (files s) |},
        Ok tt).

Definition _check_dir (dirname : string) (s : Store) : Store * outcome unit :=
  match files s !! dirname with
  | Some _ => (s, Ok tt)
  | None => ({| heap := heap s; files := <[dirname := Dir]> (files s) |}, Ok tt)
  end.

Definition collab : Collaborators :=
  Build_Collaborators config_items setting_run savepkl _check_dir.

#[local] Existing Instance collab.

Definition profile_of (d m ms s : ref) (save_dir : string) (overwrite : bool)
  : expProfile.t :=
  {| expProfile.dataset := d; expProfile.model := m;
     expProfile.metrics := ms; expProfile.setting := Some s;
     expProfile.save_dir := save_dir; expProfile.overwrite := overwrite |}.

(** One dataset, one model, one setting of class [setting_cls] and two
    metrics named [name_a] and [name_b], put in two profiles that list the
    metrics in the two orders. *)
Definition two_orders (setting_cls name_a name_b : string)
  : M (expProfile.t * expProfile.t) :=
  d <- expBase.new "expDatasetToy" [] ;;
  m <- expBase.new "expModelRidge" [("alpha", VInt 3)] ;;
  s <- expSetting.__init__ setting_cls [] ;;
  a <- expMetric.__init__ "expMetricScore" [("name", VStr name_a)] ;;
  b <- expMetric.__init__ "expMetricScore" [("name", VStr name_b)] ;;
  ab <- alloc (OList [a; b]) ;;
  ba <- alloc (OList [b; a]) ;;
  ret (profile_of d m ab s "out" false, profile_of d m ba s "out" false).

(** Two profiles that share no object and have the same options. *)
Definition twins : M (expProfile.t * expProfile.t) :=
  p <- two_orders "expSettingHoldout" "acc" "f1" ;;
  q <- two_orders "expSettingHoldout" "acc" "f1" ;;
  ret (p.1, q.1).

(** An ensemble with a setting, one metric, one model class and one
    dataset class. *)
Definition ensemble (setting_cls model_cls : string)
    (gm gd : option ParamsGrid.t) : M expEnsemble.t :=
  e <- expEnsemble.__init__ "out" false ;;
  s <- expSetting.__init__ setting_cls [] ;;
  a <- expMetric.__init__ "expMetricScore" [] ;;
  expEnsemble.add_metrics e [a] ;;;
  ret (expEnsemble.add_dataset
         (expEnsemble.add_model (expEnsemble.set_setting e s) model_cls gm)
         "expDatasetToy" gd).

Definition named (names : list string) : option ParamsGrid.t :=
  Some ((λ n, [("name", VStr n)]) <$> names).

(** The same world with a full disk. *)
Definition full (w : World) : World :=
  {| store := {| heap := heap (store w);
                 files := <["full" := File "x"]> (files (store w)) |};
     log := log w; calls := calls w |}.

(** A pool of two profiles; the setting of the first is broken. *)
Definition batch : M expPool.t :=
  bad <- two_orders "expSettingBroken" "acc" "f1" ;;
  good <- two_orders "expSettingHoldout" "acc" "f1" ;;
  ret (expPool.add
         (expPool.add (expPool.__init__ 2) (expPool.Single bad.1))
         (expPool.Single good.1)).

Definition no_ensemble : expEnsemble.t :=
  {| expEnsemble.models := []; expEnsemble.datasets := [];
     expEnsemble.metrics := 0; expEnsemble.setting := None;
     expEnsemble.save_dir := "out"; expEnsemble.overwrite := false;
     expEnsemble._n_models := 0; expEnsemble._n_datasets := 0 |}.

Definition ensemble_of (r : outcome expEnsemble.t) : expEnsemble.t :=
  match r with Ok e => e | Raise _ => no_ensemble end.

Definition pool_of (r : outcome expPool.t) : expPool.t :=
  match r with Ok pool => pool | Raise _ => expPool.__init__ 0 end.

Definition profiles_of (r : outcome (expEnsemble.t * list expProfile.t))
  : list expProfile.t :=
  match r with Ok (_, ps) => ps | Raise _ => [] end.

(** [list(e)] for the ensemble a script makes. *)
Definition iterate (script : M expEnsemble.t) (w : World)
  : World * outcome (expEnsemble.t * list expProfile.t) :=
  match script w with
  | (w1, Ok e) =>
      match expEnsemble.__iter__ e w1 with
      | (w2, e', Ok ps) => (w2, Ok (e', ps))
      | (w2, _, Raise x) => (w2, Raise x)
      end
  | (w1, Raise x) => (w1, Raise x)
  end.

End Demo.

(** ** Notions for the further properties *)

(** [x] is a metric with these options and values. *)
Definition is_metric (w : World) (x : ref) (r : ref * list value) : Prop :=
  ∃ cls, heap (store w) !! x = Some (OMetric cls r.1 r.2).

(** The counters of an ensemble agree with its sources. *)
Definition counted (e : expEnsemble.t) : Prop :=
  expEnsemble._n_models e = length (variants (expEnsemble.models e))
  ∧ expEnsemble._n_datasets e = length (variants (expEnsemble.datasets e)).

(** The profiles added one by one. *)
Definition singles (ts : list expPool.task) : list expProfile.t :=
  omap (λ t, match t with expPool.Single p => Some p | _ => None end) ts.

(** [c] only adds records to the log. *)
Definition logs {A} (c : M A) : Prop :=
  ∀ w, ∃ l, log (c w).1 = log w ++ l.

(** What [get_options] and [__str__] can see of an object: the dictionary
    of an option, the items of a list, the [_opts] of an instance. *)
Inductive facet : Type :=
  | FOption (d : Option.dict)
  | FList (items : list ref)
  | FOpts (opts : ref).

Definition facet_of (o : obj) : facet :=
  match o with
  | OOption d => FOption d
  | OList items => FList items
  | OComponent _ opts | OMetric _ opts _ | OSetting _ opts _ _ _ => FOpts opts
  end.

(** [c] calls no collaborator. *)
Definition quiet {A} (c : M A) : Prop := ∀ w, calls (c w).1 = calls w.

Definition is_check (c : call) : bool :=
  match c with CallCheckDir _ => true | _ => false end.

(** [c] does not call [_check_dir]. *)
Definition checks_nothing {A} (c : M A) : Prop :=
  ∀ w, ∃ l, calls (c w).1 = calls w ++ l ∧ Forall (λ c, is_check c = false) l.

(** ** Further concrete inputs *)

Module Edge.

(** The defaults of [Demo], and a section [expModelBare] without items. *)
Definition config_items (name : string) : option (list (string * value)) :=
  if bool_decide (name = "expModelBare") then Some []
  else Demo.config_items name.

Definition collab : Collaborators :=
  Build_Collaborators config_items Demo.setting_run Demo.savepkl
    Demo._check_dir.

(** An ensemble of one model class and one dataset class on which
    [set_setting] was not called. *)
Definition unset : M expEnsemble.t :=
  e <- expEnsemble.__init__ "out" false ;;
  ret (expEnsemble.add_dataset
         (expEnsemble.add_model e "expModelRidge" None) "expDatasetToy" None).

(** A pool of an ensemble of two by one and of a single profile. *)
Definition mixed : M expPool.t :=
  e <- Demo.ensemble "expSettingHoldout" "expModelRidge"
         (Demo.named ["a"; "b"]) None ;;
  pq <- Demo.two_orders "expSettingHoldout" "acc" "f1" ;;
  ret (expPool.add
         (expPool.add (expPool.__init__ 2) (expPool.Ensemble e))
         (expPool.Single pq.1)).

End Edge.

(* ===================================================================== *)
(** * Part II: properties                                                  *)
(* ===================================================================== *)

(** ** The digest agrees with published MD5 values *)

Example md5_empty : MD5.hexdigest EmptyString = "d41d8cd98f00b204e9800998ecf8427e".
Proof. vm_compute. reflexivity. Qed.

Example md5_abc : MD5.hexdigest "abc" = "900150983cd24fb0d6963f7d28e17f72".
Proof. vm_compute. reflexivity. Qed.

Example md5_fox :
  MD5.hexdigest "The quick brown fox jumps over the lazy dog"
  = "9e107d9d372bb6826bd81d3542a419d6".
Proof. vm_compute. reflexivity. Qed.

Example md5_two_blocks :
  MD5.hexdigest (String.concat EmptyString (replicate 56 "a"))
  = "3b0c8ac703f828b04c6c197006d17218".
Proof. vm_compute. reflexivity. Qed.

(** ** Worlds *)

Lemma set_heap_id (w : World) : set_heap (heap (store w)) w = w.
Proof. destruct w as [[h f] l c]. reflexivity. Qed.

Lemma set_heap_insert_id (w : World) (r : ref) (o : obj) :
  heap (store w) !! r = Some o ->
  set_heap (<[r := o]> (heap (store w))) w = w.
Proof. intros Hr. rewrite insert_id by exact Hr. apply set_heap_id. Qed.

(** ** Option.update *)

Section OptionUpdate.

Implicit Types (d : Option.dict) (kw : kwargs) (k : string) (v : value).

Abbreviation known := Option.known.

Lemma known_cons d k v kw :
  known d ((k, v) :: kw) ↔ is_Some (d !! k) ∧ known (<[k := v]> d) kw.
Proof.
  unfold Option.known. split.
  - intros H. split; [apply H; left|].
    intros k' Hk'. destruct (decide (k = k')) as [->|Hne].
    + rewrite lookup_insert_eq. eauto.
    + rewrite lookup_insert_ne by done. apply H. right. exact Hk'.
  - intros [Hk H] k' Hk'. rewrite fmap_cons in Hk'.
    apply elem_of_cons in Hk' as [->|Hk']; [exact Hk|].
    specialize (H k' Hk'). destruct (decide (k = k')) as [->|Hne]; [done|].
    by rewrite lookup_insert_ne in H.
Qed.

Lemma dict_update_cons d k v kw :
  Option.dict_update d ((k, v) :: kw) = Option.dict_update (<[k := v]> d) kw.
Proof. reflexivity. Qed.

Lemma dict_update_app d kw1 kw2 :
  Option.dict_update d (kw1 ++ kw2)
  = Option.dict_update (Option.dict_update d kw1) kw2.
Proof. unfold Option.dict_update. apply foldl_app. Qed.

Lemma dict_update_lookup_notin d kw k :
  k ∉ kw.*1 → Option.dict_update d kw !! k = d !! k.
Proof.
  revert d. induction kw as [|[k' v'] kw IH]; intros d Hk; [done|].
  rewrite fmap_cons in Hk. apply not_elem_of_cons in Hk as [Hne Hk].
  rewrite dict_update_cons, IH by done. simpl. by rewrite lookup_insert_ne.
Qed.

Lemma dict_update_lookup_in d kw k v :
  NoDup kw.*1 → (k, v) ∈ kw → Option.dict_update d kw !! k = Some v.
Proof.
  revert d. induction kw as [|[k' v'] kw IH]; intros d Hnd Hin.
  - by apply elem_of_nil in Hin.
  - rewrite fmap_cons in Hnd. apply NoDup_cons in Hnd as [Hk' Hnd].
    rewrite dict_update_cons.
    apply elem_of_cons in Hin as [Heq|Hin].
    + injection Heq as -> ->.
      rewrite dict_update_lookup_notin by done. apply lookup_insert_eq.
    + by apply IH.
Qed.

Lemma dict_update_dom d kw :
  known d kw → dom (Option.dict_update d kw) = dom d.
Proof.
  revert d. induction kw as [|[k v] kw IH]; intros d Hkn; [done|].
  apply known_cons in Hkn as [Hk Hkn].
  rewrite dict_update_cons, IH by done.
  rewrite dom_insert_L. apply subseteq_union_1_L, singleton_subseteq_l.
  by apply elem_of_dom.
Qed.

Lemma update_loop_known d kw :
  known d kw → Option.update_loop d kw = (Option.dict_update d kw, Ok tt).
Proof.
  revert d. induction kw as [|[k v] kw IH]; intros d Hkn; [done|].
  apply known_cons in Hkn as [Hk Hkn]. simpl.
  rewrite bool_decide_eq_true_2 by done. by apply IH.
Qed.

Lemma update_loop_unknown d pre k v post :
  known d pre → d !! k = None →
  Option.update_loop d (pre ++ (k, v) :: post)
  = (Option.dict_update d pre,
     Raise (KeyError ("'" +:+ k +:+ "' is not a valid parameter."))).
Proof.
  revert d. induction pre as [|[k' v'] pre IH]; intros d Hkn Hk.
  - simpl. rewrite bool_decide_eq_false_2; [done|].
    rewrite Hk. by intros [? ?].
  - apply known_cons in Hkn as [Hk' Hkn]. simpl.
    rewrite bool_decide_eq_true_2 by done.
    apply IH; [done|].
    rewrite lookup_insert_ne; [done|].
    intros ->. rewrite Hk in Hk'. by destruct Hk'.
Qed.

Lemma update_run (w : World) (self : ref) d kw :
  heap (store w) !! self = Some (OOption d) →
  Option.update self kw w
  = (set_heap (<[self := OOption (Option.update_loop d kw).1]> (heap (store w))) w,
     (Option.update_loop d kw).2).
Proof.
  intros Hself.
  unfold Option.update, Option.fields, bind, load, ret, raise, assign.
  rewrite Hself. destruct (Option.update_loop d kw) as [d' [[]|e]]; reflexivity.
Qed.

(** C7. [update] overwrites every supplied key that is a field and adds
    none; it raises the [KeyError] that names the first supplied key that
    is not a field, the keys before it having been overwritten already;
    and a single unknown key leaves the object, and the world, as it was. *)
Theorem update_overwrites_or_rejects (w : World) (self : ref) d kw :
  heap (store w) !! self = Some (OOption d) →
  NoDup kw.*1 →
  (known d kw →
   ∃ d', Option.update self kw w
         = (set_heap (<[self := OOption d']> (heap (store w))) w, Ok tt)
       ∧ dom d' = dom d
       ∧ (∀ k v, (k, v) ∈ kw → d' !! k = Some v)
       ∧ (∀ k, k ∉ kw.*1 → d' !! k = d !! k))
  ∧ (∀ pre k v post,
       kw = pre ++ (k, v) :: post → known d pre → d !! k = None →
       ∃ d', Option.update self kw w
             = (set_heap (<[self := OOption d']> (heap (store w))) w,
                Raise (KeyError ("'" +:+ k +:+ "' is not a valid parameter.")))
           ∧ dom d' = dom d
           ∧ (∀ k' v', (k', v') ∈ pre → d' !! k' = Some v')
           ∧ (∀ k', k' ∉ pre.*1 → d' !! k' = d !! k'))
  ∧ (∀ k v,
       kw = [(k, v)] → d !! k = None →
       Option.update self kw w
       = (w, Raise (KeyError ("'" +:+ k +:+ "' is not a valid parameter.")))).
Proof.
  intros Hself Hnd. repeat split.
  - intros Hkn. exists (Option.dict_update d kw).
    rewrite (update_run w self d kw Hself), update_loop_known by done.
    repeat split.
    + by apply dict_update_dom.
    + intros k v Hin. by apply dict_update_lookup_in.
    + intros k Hk. by apply dict_update_lookup_notin.
  - intros pre k v post -> Hkn Hk. exists (Option.dict_update d pre).
    rewrite (update_run w self d _ Hself), update_loop_unknown by done.
    repeat split.
    + by apply dict_update_dom.
    + intros k' v' Hin. apply dict_update_lookup_in; [|done].
      rewrite fmap_app in Hnd. by apply NoDup_app in Hnd as [? _].
    + intros k' Hk'. by apply dict_update_lookup_notin.
  - intros k v -> Hk.
    rewrite (update_run w self d _ Hself).
    pose proof (update_loop_unknown d [] k v []) as Hloop.
    change ([] ++ [(k, v)]) with [(k, v)] in Hloop.
    rewrite Hloop; [|by intros ? ?%elem_of_nil|done].
    simpl. by rewrite set_heap_insert_id.
Qed.

End OptionUpdate.

(** ** The length of an ensemble *)

Section EnsembleLength.

Implicit Types (e : expEnsemble.t) (cs : list ensemble_call).

Lemma or_default_size (para_grid : option ParamsGrid.t) :
  max 1 (length (expEnsemble.or_default para_grid))
  = max 1 (grid_size para_grid).
Proof. destruct para_grid as [[|para g]|]; reflexivity. Qed.

Lemma model_variants_cons (c : ensemble_call) cs :
  model_variants (c :: cs)
  = match c with AddModel _ g => max 1 (grid_size g) | _ => 0 end
    + model_variants cs.
Proof. destruct c; reflexivity. Qed.

Lemma dataset_variants_cons (c : ensemble_call) cs :
  dataset_variants (c :: cs)
  = match c with AddDataset _ g => max 1 (grid_size g) | _ => 0 end
    + dataset_variants cs.
Proof. destruct c; reflexivity. Qed.

Lemma script_counts e cs :
  expEnsemble._n_models (ensemble_script e cs)
  = expEnsemble._n_models e + model_variants cs
  ∧ expEnsemble._n_datasets (ensemble_script e cs)
    = expEnsemble._n_datasets e + dataset_variants cs.
Proof.
  revert e. induction cs as [|c cs IH]; intros e.
  - unfold model_variants, dataset_variants. simpl. lia.
  - unfold ensemble_script in *. simpl foldl.
    destruct (IH (ensemble_step e c)) as [IHm IHd]. rewrite IHm, IHd.
    rewrite model_variants_cons, dataset_variants_cons.
    destruct c as [m g|d g|s]; simpl; rewrite ?or_default_size; lia.
Qed.

Lemma init_run (save_dir : string) (overwrite : bool) (w : World) :
  expEnsemble.__init__ save_dir overwrite w
  = (set_heap (<[fresh (dom (heap (store w))) := OList []]> (heap (store w))) w,
     Ok {| expEnsemble.models := []; expEnsemble.datasets := [];
           expEnsemble.metrics := fresh (dom (heap (store w)));
           expEnsemble.setting := None;
           expEnsemble.save_dir := save_dir;
           expEnsemble.overwrite := overwrite;
           expEnsemble._n_models := 0; expEnsemble._n_datasets := 0 |}).
Proof. reflexivity. Qed.

(** C4. A new ensemble to which models and datasets are added, with any
    grids ([None] and empty grids counting for one), has for length the
    product of the two sums of [max 1 (grid size)]; with one model source
    and one dataset source that is [max 1 _ * max 1 _].  The length is
    read off the two counters: it takes no world and makes no instance. *)
Theorem ensemble_length_is_product
    (save_dir : string) (overwrite : bool) (w : World) :
  ∃ w' e0,
    expEnsemble.__init__ save_dir overwrite w = (w', Ok e0)
    ∧ (∀ cs, expEnsemble.__len__ (ensemble_script e0 cs)
             = model_variants cs * dataset_variants cs)
    ∧ (∀ model gm dataset gd,
         expEnsemble.__len__
           (expEnsemble.add_dataset (expEnsemble.add_model e0 model gm)
                                    dataset gd)
         = max 1 (grid_size gm) * max 1 (grid_size gd)).
Proof.
  eexists _, _. split; [apply init_run|]. split.
  - intros cs. unfold expEnsemble.__len__.
    destruct (script_counts
      {| expEnsemble.models := []; expEnsemble.datasets := [];
         expEnsemble.metrics := fresh (dom (heap (store w)));
         expEnsemble.setting := None; expEnsemble.save_dir := save_dir;
         expEnsemble.overwrite := overwrite;
         expEnsemble._n_models := 0; expEnsemble._n_datasets := 0 |} cs)
      as [-> ->].
    reflexivity.
  - intros model gm dataset gd. unfold expEnsemble.__len__. simpl.
    by rewrite !or_default_size.
Qed.

Example length_two_by_three :
  expEnsemble.__len__
    (ensemble_script
       {| expEnsemble.models := []; expEnsemble.datasets := [];
          expEnsemble.metrics := 0; expEnsemble.setting := None;
          expEnsemble.save_dir := "out"; expEnsemble.overwrite := false;
          expEnsemble._n_models := 0; expEnsemble._n_datasets := 0 |}
       [AddModel "expModelA" (Some [[("k", VInt 1)]; [("k", VInt 2)]]);
        AddDataset "expDatasetB"
          (Some [[("n", VInt 1)]; [("n", VInt 2)]; [("n", VInt 3)]])])
  = 6.
Proof. reflexivity. Qed.

Example length_without_grids :
  expEnsemble.__len__
    (ensemble_script
       {| expEnsemble.models := []; expEnsemble.datasets := [];
          expEnsemble.metrics := 0; expEnsemble.setting := None;
          expEnsemble.save_dir := "out"; expEnsemble.overwrite := false;
          expEnsemble._n_models := 0; expEnsemble._n_datasets := 0 |}
       [AddModel "expModelA" None; AddModel "expModelB" (Some []);
        AddDataset "expDatasetB" None])
  = 2.
Proof. reflexivity. Qed.

End EnsembleLength.

(** ** Joining with a separator *)

Section Join.

Implicit Types (c : ascii) (s t x y : string) (l : list string).

Lemma free_of_cons c a s :
  free_of c (String a s) ↔ c ≠ a ∧ free_of c s.
Proof. unfold free_of. simpl. apply not_elem_of_cons. Qed.

(** A string without [c] is not one that has [c] in it. *)
Lemma free_no_sep c x y t : free_of c x → x ≠ y +:+ String c t.
Proof.
  revert x. induction y as [|b y IH]; intros x Hx Heq; subst x.
  - apply free_of_cons in Hx as [Hne _]. by apply Hne.
  - apply free_of_cons in Hx as [_ Hx]. by apply (IH _ Hx).
Qed.

(** Two strings without [c], each followed by [c]: the first [c] is found
    at the same place. *)
Lemma free_split c x y s t :
  free_of c x → free_of c y →
  x +:+ String c s = y +:+ String c t → x = y ∧ s = t.
Proof.
  revert y. induction x as [|a x IH]; intros [|b y] Hx Hy Heq; simpl in Heq.
  - by injection Heq as ->.
  - injection Heq as <- _. apply free_of_cons in Hy as [Hne _]. by destruct Hne.
  - injection Heq as -> _. apply free_of_cons in Hx as [Hne _]. by destruct Hne.
  - injection Heq as -> Heq.
    apply free_of_cons in Hx as [_ Hx]. apply free_of_cons in Hy as [_ Hy].
    destruct (IH y Hx Hy Heq) as [-> ->]. done.
Qed.

Lemma join_cons2 c x y l :
  join (String c EmptyString) (x :: y :: l)
  = x +:+ String c (join (String c EmptyString) (y :: l)).
Proof. reflexivity. Qed.

(** [join] can be undone on non-empty lists of strings without the
    separator. *)
Lemma join_inj c l1 l2 :
  l1 ≠ [] → l2 ≠ [] →
  Forall (free_of c) l1 → Forall (free_of c) l2 →
  join (String c EmptyString) l1 = join (String c EmptyString) l2 → l1 = l2.
Proof.
  revert l2. induction l1 as [|x [|x' l1] IH]; intros [|y [|y' l2]];
    try done; intros _ _ H1 H2 Heq.
  - simpl in Heq. by subst.
  - rewrite join_cons2 in Heq. change (join (String c EmptyString) [x]) with x in Heq.
    apply Forall_cons in H1 as [Hx _]. by apply free_no_sep in Heq.
  - rewrite join_cons2 in Heq. change (join (String c EmptyString) [y]) with y in Heq.
    symmetry in Heq.
    apply Forall_cons in H2 as [Hy _]. by apply free_no_sep in Heq.
  - rewrite !join_cons2 in Heq.
    apply Forall_cons in H1 as [Hx H1]. apply Forall_cons in H2 as [Hy H2].
    apply free_split in Heq as [-> Heq]; [|done..].
    f_equal. by apply IH.
Qed.

End Join.

(** ** The fingerprint of a profile *)

Section Fingerprint.

Implicit Types (p : expProfile.t) (w : World) (o : options).

Lemma rendered_run o w (sd sm ss : string) (sms : list string) :
  Option.__str__ (opt_dataset o) w = (w, Ok sd) →
  Option.__str__ (opt_model o) w = (w, Ok sm) →
  Option.__str__ (opt_setting o) w = (w, Ok ss) →
  mapM Option.__str__ (opt_metrics o) w = (w, Ok sms) →
  expProfile.rendered o w = (w, Ok (sd :: sm :: ss :: sms)).
Proof.
  intros Hd Hm Hs Hms. unfold expProfile.rendered, expProfile.opts_list.
  simpl. unfold bind, ret. by rewrite Hd, Hm, Hs, Hms.
Qed.

Lemma message_run o w (strs : list string) :
  expProfile.rendered o w = (w, Ok strs) →
  expProfile.message o w = (w, Ok (join ";" strs)).
Proof. intros H. unfold expProfile.message, bind, ret. by rewrite H. Qed.

Lemma fingerprint_run p w o (strs : list string) :
  expProfile.get_options p w = (w, Ok o) →
  expProfile.rendered o w = (w, Ok strs) →
  expProfile.fingerprint p w = (w, Ok (MD5.hexdigest (join ";" strs))).
Proof.
  intros Ho Hr. unfold expProfile.fingerprint, bind, ret.
  by rewrite Ho, (message_run o w strs Hr).
Qed.

(** C1. Two profiles, each in a world of its own and made of instances of
    its own, whose dataset, model and setting options and whose metric
    options, in list order, render to the same strings, have the same
    fingerprint: the MD5 hex digest of these strings joined by [";"] in the
    order dataset, model, setting, metrics. *)
Theorem fingerprint_deterministic
    (p1 p2 : expProfile.t) (w1 w2 : World) (o1 o2 : options)
    (sd sm ss : string) (sms : list string) :
  expProfile.get_options p1 w1 = (w1, Ok o1) →
  expProfile.get_options p2 w2 = (w2, Ok o2) →
  Option.__str__ (opt_dataset o1) w1 = (w1, Ok sd) →
  Option.__str__ (opt_dataset o2) w2 = (w2, Ok sd) →
  Option.__str__ (opt_model o1) w1 = (w1, Ok sm) →
  Option.__str__ (opt_model o2) w2 = (w2, Ok sm) →
  Option.__str__ (opt_setting o1) w1 = (w1, Ok ss) →
  Option.__str__ (opt_setting o2) w2 = (w2, Ok ss) →
  mapM Option.__str__ (opt_metrics o1) w1 = (w1, Ok sms) →
  mapM Option.__str__ (opt_metrics o2) w2 = (w2, Ok sms) →
  ∃ fp,
    fp = MD5.hexdigest (join ";" (sd :: sm :: ss :: sms))
    ∧ expProfile.fingerprint p1 w1 = (w1, Ok fp)
    ∧ expProfile.fingerprint p2 w2 = (w2, Ok fp).
Proof.
  intros Ho1 Ho2 Hd1 Hd2 Hm1 Hm2 Hs1 Hs2 Hms1 Hms2.
  eexists. split; [reflexivity|]. split.
  - apply (fingerprint_run p1 w1 o1); [done|]. by apply rendered_run.
  - apply (fingerprint_run p2 w2 o2); [done|]. by apply rendered_run.
Qed.

(** C8, amended. Two profiles with the same dataset, model and setting
    renderings whose metric renderings are one list in two different
    orders hash different messages, provided no rendering contains the
    separator [";"]; their fingerprints are the digests of these two
    messages. *)
Theorem reordering_changes_message
    (p1 p2 : expProfile.t) (w : World) (o1 o2 : options)
    (sd sm ss : string) (sms1 sms2 : list string) :
  expProfile.get_options p1 w = (w, Ok o1) →
  expProfile.get_options p2 w = (w, Ok o2) →
  expProfile.rendered o1 w = (w, Ok (sd :: sm :: ss :: sms1)) →
  expProfile.rendered o2 w = (w, Ok (sd :: sm :: ss :: sms2)) →
  sms1 ≡ₚ sms2 →
  sms1 ≠ sms2 →
  Forall (free_of ";") (sd :: sm :: ss :: sms1) →
  ∃ m1 m2,
    expProfile.message o1 w = (w, Ok m1)
    ∧ expProfile.message o2 w = (w, Ok m2)
    ∧ m1 ≠ m2
    ∧ expProfile.fingerprint p1 w = (w, Ok (MD5.hexdigest m1))
    ∧ expProfile.fingerprint p2 w = (w, Ok (MD5.hexdigest m2)).
Proof.
  intros Ho1 Ho2 Hr1 Hr2 Hperm Hne Hfree.
  exists (join ";" (sd :: sm :: ss :: sms1)), (join ";" (sd :: sm :: ss :: sms2)).
  split; [by apply message_run|]. split; [by apply message_run|].
  split; [|split; by eapply fingerprint_run].
  intros Heq. apply Hne.
  assert (Forall (free_of ";") (sd :: sm :: ss :: sms2)) as Hfree2.
  { eapply Permutation_Forall; [|exact Hfree]. by rewrite Hperm. }
  apply join_inj in Heq; [|done..]. congruence.
Qed.

End Fingerprint.

(** ** Statements that only read *)

Section Reads.

Lemma reads_ret {A} (a : A) : reads (ret a).
Proof. done. Qed.

Lemma reads_raise {A} (e : exn) : reads (@raise A e).
Proof. done. Qed.

Lemma reads_load (r : ref) : reads (load r).
Proof. intros w. unfold load. by destruct (heap (store w) !! r). Qed.

Lemma reads_bind {A B} (c : M A) (k : A → M B) :
  reads c → (∀ a, reads (k a)) → reads (bind c k).
Proof.
  intros Hc Hk w. unfold bind. specialize (Hc w).
  destruct (c w) as [w' [a|e]]; simpl in *; subst w'; [apply Hk|done].
Qed.

Lemma reads_mapM {A B} (f : A → M B) (l : list A) :
  (∀ a, reads (f a)) → reads (mapM f l).
Proof.
  intros Hf. induction l as [|x l IH]; [done|].
  simpl. apply reads_bind; [done|]. intros y.
  apply reads_bind; [done|]. intros ys. apply reads_ret.
Qed.

Lemma reads_eq {A} (c : M A) (w : World) (r : outcome A) :
  reads c → (c w).2 = r → c w = (w, r).
Proof. intros Hc <-. rewrite <- (Hc w) at 2. by destruct (c w). Qed.

Lemma reads_get_opts (x : ref) : reads (get_opts x).
Proof.
  apply reads_bind; [apply reads_load|].
  intros []; first [apply reads_ret | apply reads_raise].
Qed.

Lemma reads_list_items (l : ref) : reads (expSetting.list_items l).
Proof.
  apply reads_bind; [apply reads_load|].
  intros []; first [apply reads_ret | apply reads_raise].
Qed.

Lemma reads_metric_result (x : ref) : reads (expSetting.metric_result x).
Proof.
  apply reads_bind; [apply reads_load|].
  intros []; first [apply reads_ret | apply reads_raise].
Qed.

Lemma reads_get_metrics_result (s : ref) :
  reads (expSetting.get_metrics_result s).
Proof.
  apply reads_bind; [apply reads_load|].
  intros []; try apply reads_raise.
  apply reads_bind; [apply reads_list_items|].
  intros items. apply reads_mapM, reads_metric_result.
Qed.

Lemma reads_get_options (p : expProfile.t) : reads (expProfile.get_options p).
Proof.
  unfold expProfile.get_options.
  apply reads_bind; [apply reads_get_opts|intros d].
  apply reads_bind; [apply reads_get_opts|intros m].
  apply reads_bind; [|intros s].
  { destruct (expProfile.setting p); [apply reads_get_opts|apply reads_raise]. }
  apply reads_bind; [apply reads_list_items|intros items].
  apply reads_bind; [apply reads_mapM, reads_get_opts|intros ms].
  apply reads_ret.
Qed.

Lemma reads_str (r : ref) : reads (Option.__str__ r).
Proof.
  apply reads_bind; [|intros ?; apply reads_ret].
  apply reads_bind; [apply reads_load|].
  intros []; first [apply reads_ret | apply reads_raise].
Qed.

Lemma reads_rendered (o : options) : reads (expProfile.rendered o).
Proof. apply reads_mapM, reads_str. Qed.

Lemma reads_message (o : options) : reads (expProfile.message o).
Proof.
  apply reads_bind; [apply reads_rendered|intros ?; apply reads_ret].
Qed.

Lemma reads_fingerprint (p : expProfile.t) : reads (expProfile.fingerprint p).
Proof.
  apply reads_bind; [apply reads_get_options|intros ?].
  apply reads_bind; [apply reads_message|intros ?; apply reads_ret].
Qed.

End Reads.

(** ** expProfile.run *)

Section ProfileRun.

Context `{Collaborators}.

Variables (p : expProfile.t) (w : World) (o : options) (m : string).
Variables (s : ref) (cls : string) (opts : ref) (d0 m0 : option ref) (ms0 : ref).

Hypothesis Hoptions : expProfile.get_options p w = (w, Ok o).
Hypothesis Hmessage : expProfile.message o w = (w, Ok m).
Hypothesis Hsetting : expProfile.setting p = Some s.
Hypothesis Hheap : heap (store w) !! s = Some (OSetting cls opts d0 m0 ms0).

Local Abbreviation filename :=
  (os_path_join (expProfile.save_dir p) (MD5.hexdigest m)).

(** The store once the setting is bound to the profile's parts. *)
Local Abbreviation bound :=
  {| heap := <[s := OSetting cls opts (Some (expProfile.dataset p))
                       (Some (expProfile.model p)) (expProfile.metrics p)]>
               (heap (store w));
     files := files (store w) |}.

Local Abbreviation setup_call :=
  (CallSetup s (expProfile.dataset p) (expProfile.model p)
             (expProfile.metrics p)).

Local Abbreviation skip_notice :=
  {| lvl := WARNING; msg := "'" +:+ filename +:+ "' already exists, skip.";
     exc_info := None |}.

Local Abbreviation saved_notice :=
  {| lvl := INFO; msg := "'" +:+ filename +:+ "' saved."; exc_info := None |}.

Local Abbreviation save_error :=
  {| lvl := ERROR; msg := "IOError when saving '" +:+ filename +:+ "'";
     exc_info := None |}.

(** What lines 160 to 170 do, case by case. *)
Lemma run_and_save_cases :
  expProfile.run_and_save p o filename w
  = let calls2 := calls w ++ [setup_call; CallRun s] in
    match setting_run s bound with
    | (st1, Raise e) =>
        ({| store := st1; log := log w; calls := calls2 |}, Raise e)
    | (st1, Ok v) =>
        let w2 := {| store := st1; log := log w; calls := calls2 |} in
        match (expSetting.get_metrics_result s w2).2 with
        | Raise e => (w2, Raise e)
        | Ok mr =>
            let res := {| Options := o; Metrics := mr; Others := v |} in
            let calls3 :=
              calls w ++ [setup_call; CallRun s; CallSave res filename] in
            match savepkl res filename st1 with
            | (st2, Ok _) =>
                ({| store := st2; log := log w ++ [saved_notice];
                    calls := calls3 |}, Ok tt)
            | (st2, Raise e) =>
                if expProfile.is_IOError e
                then ({| store := st2; log := log w ++ [save_error];
                         calls := calls3 |}, Ok tt)
                else ({| store := st2; log := log w; calls := calls3 |},
                      Raise e)
            end
        end
    end.
Proof.
  unfold expProfile.run_and_save. rewrite Hsetting.
  unfold bind at 1. unfold record_call at 1.
  unfold bind at 1. unfold expSetting.setup, bind at 1, load at 1. simpl.
  rewrite Hheap. unfold assign at 1. simpl.
  unfold bind at 1. unfold record_call at 1. simpl.
  unfold bind at 1. unfold expSetting.run, extern at 1. simpl.
  rewrite <- (app_assoc (calls w) [setup_call] [CallRun s]). simpl app.
  destruct (setting_run s bound) as [st1 [v|e]]; [|reflexivity].
  unfold bind at 1.
  pose proof (reads_get_metrics_result s
    {| store := st1; log := log w;
       calls := calls w ++ [setup_call; CallRun s] |}) as Hreads.
  destruct (expSetting.get_metrics_result s _) as [w2 [mr|e]];
    simpl in Hreads; subst w2; [|reflexivity].
  simpl.
  unfold try_except, bind, record_call, extern, logging. simpl.
  rewrite <- (app_assoc (calls w) [setup_call; CallRun s]). simpl app.
  destruct (savepkl _ _ st1) as [st2 [[]|e]]; [reflexivity|].
  by destruct (expProfile.is_IOError e).
Qed.


Lemma run_through :
  expProfile.overwrite p = true ∨ files (store w) !! filename = None →
  expProfile.run p w = expProfile.run_and_save p o filename w.
Proof.
  intros Hgate. unfold expProfile.run, bind at 1. rewrite Hoptions.
  unfold bind at 1. rewrite Hmessage.
  destruct Hgate as [How|Hnone].
  - by rewrite How.
  - destruct (expProfile.overwrite p); [done|].
    unfold bind, os_path_exists. rewrite bool_decide_eq_false_2; [done|].
    rewrite Hnone. by intros [? ?].
Qed.

(** The calls [run] adds when it is not skipped begin with the binding
    and the run of the setting. *)
Lemma run_through_calls (w' : World) (r : outcome unit) :
  expProfile.run_and_save p o filename w = (w', r) →
  ∃ rest, calls w' = calls w ++ setup_call :: CallRun s :: rest
    ∧ (∀ res f, CallSave res f ∈ rest →
         ∃ st1, setting_run s bound = (st1, Ok (Others res)) ∧ f = filename)
    ∧ (∀ st1 v mr,
         setting_run s bound = (st1, Ok v) →
         (expSetting.get_metrics_result s
            {| store := st1; log := log w;
               calls := calls w ++ [setup_call; CallRun s] |}).2 = Ok mr →
         rest = [CallSave {| Options := o; Metrics := mr; Others := v |}
                          filename]).
Proof.
  rewrite run_and_save_cases. cbv zeta.
  destruct (setting_run s bound) as [st1 [v|e]].
  2:{ intros [= <- <-]. exists []. split; [done|]. split.
      - by intros ? ? ?%elem_of_nil.
      - by intros ? ? ? [= _ ?]. }
  destruct (expSetting.get_metrics_result s _).2 as [mr|e] eqn:Hmr.
  2:{ intros [= <- <-]. exists []. split; [done|]. split.
      - by intros ? ? ?%elem_of_nil.
      - intros ? ? ? [= <- <-] Hmr'. rewrite Hmr in Hmr'. done. }
  set (res := {| Options := o; Metrics := mr; Others := v |}).
  assert (∀ w'' : World,
    calls w'' = calls w ++ [setup_call; CallRun s; CallSave res filename] →
    ∃ rest, calls w'' = calls w ++ setup_call :: CallRun s :: rest
    ∧ (∀ res' f, CallSave res' f ∈ rest →
         ∃ st1', (st1, Ok v) = (st1', Ok (Others res')) ∧ f = filename)
    ∧ (∀ st1' v' mr',
         (st1, @Ok value v) = (st1', Ok v') →
         (expSetting.get_metrics_result s
            {| store := st1'; log := log w;
               calls := calls w ++ [setup_call; CallRun s] |}).2 = Ok mr' →
         rest = [CallSave {| Options := o; Metrics := mr'; Others := v' |}
                          filename])) as Hshape.
  { intros w'' Hc. exists [CallSave res filename]. split; [done|]. split.
    - intros res' f [= -> ->]%list_elem_of_singleton. by exists st1.
    - intros st1' v' mr' [= <- <-] Hmr'. rewrite Hmr in Hmr'.
      by injection Hmr' as <-. }
  destruct (savepkl res filename st1) as [st2 [[]|e]].
  - intros [= <- <-]. by apply Hshape.
  - destruct (expProfile.is_IOError e); intros [= <- <-]; by apply Hshape.
Qed.


(** C6. In a run that is not skipped: an [IOError] of [savepkl] is
    caught, the error is logged and [run] returns normally; when the
    setting's run raises, [run] raises the same exception without having
    called [savepkl]; and [savepkl] is never called with anything but the
    value a returned setting's run gave, under the name of the profile. *)
Theorem save_failure_is_contained :
  expProfile.overwrite p = true ∨ files (store w) !! filename = None →
  (∀ st1 v mr st2,
     setting_run s bound = (st1, Ok v) →
     (expSetting.get_metrics_result s
        {| store := st1; log := log w;
           calls := calls w ++ [setup_call; CallRun s] |}).2 = Ok mr →
     savepkl {| Options := o; Metrics := mr; Others := v |} filename st1
     = (st2, Raise IOError) →
     expProfile.run p w
     = ({| store := st2; log := log w ++ [save_error];
           calls := calls w ++ [setup_call; CallRun s;
                                CallSave {| Options := o; Metrics := mr;
                                            Others := v |} filename] |},
        Ok tt))
  ∧ (∀ st1 e,
       setting_run s bound = (st1, Raise e) →
       expProfile.run p w
       = ({| store := st1; log := log w;
             calls := calls w ++ [setup_call; CallRun s] |}, Raise e))
  ∧ (∀ w' r new res f,
       expProfile.run p w = (w', r) →
       calls w' = calls w ++ new →
       CallSave res f ∈ new →
       ∃ st1, setting_run s bound = (st1, Ok (Others res)) ∧ f = filename).
Proof.
  intros Hgate. rewrite (run_through Hgate). repeat split.
  - intros st1 v mr st2 Hrun Hmr Hsave.
    rewrite run_and_save_cases. cbv zeta. by rewrite Hrun, Hmr, Hsave.
  - intros st1 e Hrun. rewrite run_and_save_cases. cbv zeta. by rewrite Hrun.
  - intros w' r new res f Hrun Hcalls Hin.
    destruct (run_through_calls w' r Hrun) as (rest & Hcalls' & Honly & _).
    rewrite Hcalls' in Hcalls. apply app_inv_head in Hcalls. subst new.
    apply elem_of_cons in Hin as [?|Hin]; [done|].
    apply elem_of_cons in Hin as [?|Hin]; [done|].
    by apply Honly.
Qed.

End ProfileRun.

(** ** Instantiating a class *)

Section Instances.

Context `{Collaborators}.

Implicit Types (w : World) (cls : string) (kw : kwargs).

Lemma update_loop_ok (d : Option.dict) kw :
  (Option.update_loop d kw).2 = Ok tt → Option.known d kw.
Proof.
  revert d. induction kw as [|[k v] kw IH]; intros d Hok.
  - by intros k ?%elem_of_nil.
  - simpl in Hok. apply known_cons.
    destruct (decide (is_Some (d !! k))) as [Hk|Hk].
    + rewrite bool_decide_eq_true_2 in Hok by done. split; [done|]. by apply IH.
    + rewrite bool_decide_eq_false_2 in Hok by done. done.
Qed.

Lemma fresh_lookup (h : gmap ref obj) : h !! fresh (dom h) = None.
Proof. apply not_elem_of_dom, is_fresh. Qed.

(** What [getDefaultOption] leaves: a new [Option] object, or nothing. *)
Lemma getDefaultOption_cases cls w :
  let r0 := fresh (dom (heap (store w))) in
  match default_fields cls with
  | Some d =>
      ∃ l, getDefaultOption cls w
           = ({| store := {| heap := <[r0 := OOption d]> (heap (store w));
                             files := files (store w) |};
                 log := log w ++ l; calls := calls w |}, Ok r0)
  | None => getDefaultOption cls w = (w, Raise ValueError)
  end.
Proof.
  unfold default_fields, getDefaultOption, Option.__init__, bind at 1.
  destruct (config_items cls) as [[|item items]|]; simpl.
  - done.
  - exists []. rewrite app_nil_r. reflexivity.
  - eexists [_]. reflexivity.
Qed.

(** Instantiating a class allocates and touches nothing that was there;
    when it returns, the instance is there with its options. *)
Lemma new_spec cls kw w :
  heap (store w) ⊆ heap (store (expBase.new cls kw w).1)
  ∧ ∀ x, (expBase.new cls kw w).2 = Ok x →
      heap (store w) !! x = None
      ∧ instance_of (expBase.new cls kw w).1 x (cls, kw).
Proof.
  pose proof (getDefaultOption_cases cls w) as Hdef. cbv zeta in Hdef.
  pose proof (fresh_lookup (heap (store w))) as Hr0.
  set (r0 := fresh (dom (heap (store w)))) in *.
  unfold expBase.new, expBase.__init__, bind.
  destruct (default_fields cls) as [d|] eqn:Hd.
  2:{ rewrite Hdef. simpl. split; [done|]. by intros x [=]. }
  destruct Hdef as [l ->].
  erewrite update_run by (simpl; apply lookup_insert_eq).
  simpl. rewrite insert_insert_eq.
  destruct (Option.update_loop d kw) as [d' [[]|e]] eqn:Hloop; simpl.
  2:{ split; [by apply insert_subseteq|]. by intros x [=]. }
  pose proof (update_loop_ok d kw) as Hkn. rewrite Hloop in Hkn.
  specialize (Hkn eq_refl).
  pose proof (update_loop_known d kw Hkn) as Hd'. rewrite Hloop in Hd'.
  injection Hd' as ->.
  unfold alloc. simpl.
  set (h1 := <[r0 := OOption (Option.dict_update d kw)]> (heap (store w))).
  pose proof (fresh_lookup h1) as Hx.
  assert (heap (store w) ⊆ h1) as Hsub by by apply insert_subseteq.
  split.
  - etrans; [exact Hsub|]. by apply insert_subseteq.
  - intros x [= <-]. split.
    + eapply lookup_weaken_None; [exact Hx|exact Hsub].
    + exists r0, d. simpl. split; [done|]. split; [done|].
      split; [apply lookup_insert_eq|].
      rewrite lookup_insert_ne.
      * apply lookup_insert_eq.
      * intros Heq. rewrite Heq in Hx. unfold h1 in Hx.
        by rewrite lookup_insert_eq in Hx.
Qed.

Lemma instance_of_mono w w' (x : ref) (v : string * kwargs) :
  heap (store w) ⊆ heap (store w') → instance_of w x v → instance_of w' x v.
Proof.
  intros Hsub (opts & d & Hd & Hkn & Hx & Hopts).
  exists opts, d. repeat split; try done; by eapply lookup_weaken.
Qed.

End Instances.

(** ** Iterating an ensemble *)

Section EnsembleIteration.

Context `{Collaborators}.

Implicit Types (w : World) (e : expEnsemble.t) (ms ds xs : list ref).
Implicit Types (sources : list expEnsemble.source).

Lemma bind_singleton {A B} (g : A → B) (l : list A) :
  (x ← l; [g x]) = g <$> l.
Proof. induction l as [|a l IH]; [done|]. simpl. by f_equal. Qed.

Lemma variants_cons (s : expEnsemble.source) sources :
  variants (s :: sources)
  = (pair (expEnsemble.factory s) <$> expEnsemble.pending s)
    ++ variants sources.
Proof. unfold variants. simpl. by rewrite bind_singleton. Qed.

Lemma variants_exhausted sources : variants (exhausted <$> sources) = [].
Proof. induction sources as [|s sources IH]; [done|]. by rewrite fmap_cons, variants_cons. Qed.

Lemma instance_of_lookup w (x : ref) (v : string * kwargs) :
  instance_of w x v → is_Some (heap (store w) !! x).
Proof. intros (opts & d & _ & _ & Hx & _). eauto. Qed.

Lemma made_nil w w' : made w w' [] [].
Proof. repeat split; [constructor|constructor|apply NoDup_nil_2]. Qed.

Lemma made_app w w1 w2 xs ys (vs us : list (string * kwargs)) :
  heap (store w) ⊆ heap (store w1) →
  heap (store w1) ⊆ heap (store w2) →
  made w w1 xs vs → made w1 w2 ys us → made w w2 (xs ++ ys) (vs ++ us).
Proof.
  intros Hsub1 Hsub2 (Hxs & Hfx & Hndx) (Hys & Hfy & Hndy). repeat split.
  - apply Forall2_app; [|done].
    eapply Forall2_impl; [exact Hxs|]. intros x v. by apply instance_of_mono.
  - apply Forall_app. split; [done|].
    eapply Forall_impl; [exact Hfy|]. intros y Hy. simpl in Hy.
    by eapply lookup_weaken_None.
  - apply NoDup_app. split; [done|]. split; [|done].
    intros x Hx Hy.
    rewrite Forall_forall in Hfy. specialize (Hfy x Hy). simpl in Hfy.
    apply list_elem_of_lookup in Hx as [i Hi].
    destruct (Forall2_lookup_l _ _ _ _ _ Hxs Hi) as (v & _ & Hinst).
    apply instance_of_lookup in Hinst as [o Ho]. congruence.
Qed.

Lemma drain_spec cls (pending : list kwargs) w w' (rest : list kwargs)
    (r : outcome (list ref)) :
  expEnsemble.drain cls pending w = (w', rest, r) →
  heap (store w) ⊆ heap (store w')
  ∧ ∀ xs, r = Ok xs → rest = [] ∧ made w w' xs (pair cls <$> pending).
Proof.
  revert w w' rest r. induction pending as [|para pending IH];
    intros w w' rest r Hdrain; simpl in Hdrain.
  - injection Hdrain as <- <- <-. split; [done|].
    intros xs [= <-]. split; [done|]. apply made_nil.
  - destruct (new_spec cls para w) as [Hsub1 Hnew].
    destruct (expBase.new cls para w) as [w1 [x|e]]; simpl in *.
    2:{ injection Hdrain as <- <- <-. split; [done|]. by intros xs [=]. }
    destruct (Hnew x eq_refl) as [Hfresh Hinst].
    destruct (expEnsemble.drain cls pending w1) as [[w2 rest'] r'] eqn:Hd.
    destruct (IH _ _ _ _ Hd) as [Hsub2 Hrest].
    injection Hdrain as <- <- <-.
    split; [by etrans|].
    intros xs Hxs. destruct r' as [xs'|e]; [|done]. injection Hxs as <-.
    destruct (Hrest xs' eq_refl) as [-> Hmade]. split; [done|].
    apply (made_app w w1 w2 [x] xs' [(cls, para)]); try done.
    repeat split.
    + by constructor.
    + by constructor.
    + apply NoDup_singleton.
Qed.

Lemma chain_spec sources w w' sources' (r : outcome (list ref)) :
  expEnsemble.chain sources w = (w', sources', r) →
  heap (store w) ⊆ heap (store w')
  ∧ ∀ xs, r = Ok xs →
      sources' = exhausted <$> sources ∧ made w w' xs (variants sources).
Proof.
  revert w w' sources' r. induction sources as [|s sources IH];
    intros w w' sources' r Hchain; simpl in Hchain.
  - injection Hchain as <- <- <-. split; [done|].
    intros xs [= <-]. split; [done|]. apply made_nil.
  - destruct (expEnsemble.drain _ _ w) as [[w1 rest] r1] eqn:Hd.
    destruct (drain_spec _ _ _ _ _ _ Hd) as [Hsub1 Hrest].
    destruct r1 as [xs1|e].
    2:{ injection Hchain as <- <- <-. split; [done|]. by intros xs [=]. }
    destruct (Hrest xs1 eq_refl) as [-> Hmade1].
    destruct (expEnsemble.chain sources w1) as [[w2 sources2] r2] eqn:Hc.
    destruct (IH _ _ _ _ Hc) as [Hsub2 Hrest2].
    injection Hchain as <- <- <-. split; [by etrans|].
    intros xs Hxs. destruct r2 as [xs2|e]; [|done]. injection Hxs as <-.
    destruct (Hrest2 xs2 eq_refl) as [-> Hmade2]. split; [done|].
    rewrite variants_cons. by apply (made_app w w1 w2).
Qed.

(** Exhausted iterators give nothing and change nothing. *)
Lemma chain_exhausted sources w :
  expEnsemble.chain (exhausted <$> sources) w
  = (w, exhausted <$> sources, Ok []).
Proof.
  induction sources as [|s sources IH]; [done|].
  rewrite fmap_cons. simpl. by rewrite IH.
Qed.

Lemma pairings_fmap e ms ds :
  expEnsemble.pairings e ms ds
  = (m ← ms; expEnsemble.profile e m <$> ds).
Proof.
  unfold expEnsemble.pairings. induction ms as [|m ms IH]; [done|].
  by rewrite !bind_cons, IH, bind_singleton.
Qed.

Lemma pairings_length e ms ds :
  length (expEnsemble.pairings e ms ds) = length ms * length ds.
Proof.
  rewrite pairings_fmap. induction ms as [|m ms IH]; [done|].
  rewrite bind_cons, length_app, length_fmap, IH. simpl. lia.
Qed.

(** Model-major order: the pair of model [i] and dataset [j] comes at
    place [i * length ds + j]. *)
Lemma pairings_lookup e ms ds (i j : nat) (m d : ref) :
  ms !! i = Some m → ds !! j = Some d →
  expEnsemble.pairings e ms ds !! (i * length ds + j)
  = Some (expEnsemble.profile e m d).
Proof.
  rewrite pairings_fmap. revert i.
  induction ms as [|m0 ms IH]; intros i Hm Hd; [done|]. rewrite bind_cons.
  destruct i as [|i]; simpl in Hm |- *.
  - injection Hm as ->. rewrite lookup_app_l.
    + by rewrite list_lookup_fmap, Hd.
    + rewrite length_fmap. by eapply lookup_lt_Some.
  - rewrite lookup_app_r; rewrite length_fmap; [|lia].
    replace (length ds + i * length ds + j - length ds)
      with (i * length ds + j) by lia.
    by apply IH.
Qed.

Lemma pairings_elem e ms ds (p : expProfile.t) :
  p ∈ expEnsemble.pairings e ms ds
  ↔ ∃ m d, m ∈ ms ∧ d ∈ ds ∧ p = expEnsemble.profile e m d.
Proof.
  rewrite pairings_fmap, list_elem_of_bind. split.
  - intros (m & Hp & Hm). apply list_elem_of_fmap in Hp as (d & -> & Hd).
    by exists m, d.
  - intros (m & d & Hm & Hd & ->). exists m. split; [|done].
    apply list_elem_of_fmap. by exists d.
Qed.

(** What a completed iteration returns and leaves. *)
Lemma iter_spec e w w' e' (ps : list expProfile.t) :
  expEnsemble.__iter__ e w = (w', e', Ok ps) →
  ∃ ms ds,
    e' = expEnsemble.with_sources e (exhausted <$> expEnsemble.models e)
                                    (exhausted <$> expEnsemble.datasets e)
    ∧ Forall2 (instance_of w') ms (variants (expEnsemble.models e))
    ∧ Forall2 (instance_of w') ds (variants (expEnsemble.datasets e))
    ∧ Forall (λ x, heap (store w) !! x = None) (ms ++ ds)
    ∧ NoDup (ms ++ ds)
    ∧ ps = expEnsemble.pairings e ms ds.
Proof.
  unfold expEnsemble.__iter__.
  destruct (expEnsemble.chain (expEnsemble.models e) w)
    as [[w1 models'] r1] eqn:Hc1.
  destruct (chain_spec _ _ _ _ _ Hc1) as [Hsub1 Hrest1].
  destruct r1 as [ms|err]; [|by intros [=]].
  destruct (Hrest1 ms eq_refl) as [-> Hmade1].
  destruct (expEnsemble.chain (expEnsemble.datasets e) w1)
    as [[w2 datasets'] r2] eqn:Hc2.
  destruct (chain_spec _ _ _ _ _ Hc2) as [Hsub2 Hrest2].
  destruct r2 as [ds|err]; [|by intros [=]].
  destruct (Hrest2 ds eq_refl) as [-> Hmade2].
  intros [= <- <- <-]. exists ms, ds. split; [done|].
  destruct (made_app w w1 w2 _ _ _ _ Hsub1 Hsub2 Hmade1 Hmade2)
    as (_ & Hfresh & Hnd).
  destruct Hmade1 as [Hms _]. destruct Hmade2 as [Hds _].
  repeat split; try done.
  eapply Forall2_impl; [exact Hms|]. intros x v. by apply instance_of_mono.
Qed.

Lemma mapM_length {A B} (f : A → M B) (l : list A) w w'' (ys : list B) :
  mapM f l w = (w'', Ok ys) → length ys = length l.
Proof.
  revert w w'' ys. induction l as [|a l IH]; intros w w'' ys; simpl.
  - by intros [= _ <-].
  - unfold bind at 1. destruct (f a w) as [w1 [y|err]]; [|done].
    unfold bind at 1. destruct (mapM f l w1) as [w2 [ys'|err]] eqn:Hm; [|done].
    intros [= _ <-]. simpl. f_equal. by eapply IH.
Qed.

Lemma rendered_nonempty (o : options) w w'' (strs : list string) :
  expProfile.rendered o w = (w'', Ok strs) → strs ≠ [].
Proof. intros Hlen%mapM_length ->. done. Qed.

(** Two profiles whose renderings differ and hold no [";"] hash different
    messages. *)
Lemma distinct_messages (p q : expProfile.t) w (op oq : options)
    (sp sq : list string) :
  expProfile.get_options p w = (w, Ok op) →
  expProfile.rendered op w = (w, Ok sp) →
  expProfile.get_options q w = (w, Ok oq) →
  expProfile.rendered oq w = (w, Ok sq) →
  Forall (free_of ";") sp → Forall (free_of ";") sq → sp ≠ sq →
  ∃ mp mq,
    mp ≠ mq
    ∧ expProfile.fingerprint p w = (w, Ok (MD5.hexdigest mp))
    ∧ expProfile.fingerprint q w = (w, Ok (MD5.hexdigest mq)).
Proof.
  intros Hop Hsp Hoq Hsq Hfp Hfq Hne.
  exists (join ";" sp), (join ";" sq).
  split; [|split; by eapply fingerprint_run].
  intros Heq. apply Hne.
  eapply join_inj; eauto using rendered_nonempty.
Qed.

(** C5, amended. An iteration that runs to its end yields the cross
    product of the model instances and the dataset instances made from the
    sources, in model-major order, each pair in a profile that carries the
    metrics, setting, directory and overwrite flag of the ensemble.  With
    one model class over a grid of two and one dataset class over a grid of
    three the length is 6 and 6 profiles are yielded.  Two yielded
    profiles whose renderings differ and contain no [";"] have the digests
    of two different messages for fingerprints. *)
Theorem iteration_is_cross_product e w w' e' (ps : list expProfile.t) :
  expEnsemble.__iter__ e w = (w', e', Ok ps) →
  ∃ ms ds,
    Forall2 (instance_of w') ms (variants (expEnsemble.models e))
    ∧ Forall2 (instance_of w') ds (variants (expEnsemble.datasets e))
    ∧ NoDup (ms ++ ds)
    ∧ length ps = length ms * length ds
    ∧ (∀ i j m d,
         ms !! i = Some m → ds !! j = Some d →
         ps !! (i * length ds + j)
         = Some {| expProfile.dataset := d; expProfile.model := m;
                   expProfile.metrics := expEnsemble.metrics e;
                   expProfile.setting := expEnsemble.setting e;
                   expProfile.save_dir := expEnsemble.save_dir e;
                   expProfile.overwrite := expEnsemble.overwrite e |})
    ∧ (∀ e0 model gm dataset gd,
         e = expEnsemble.add_dataset
               (expEnsemble.add_model e0 model (Some gm)) dataset (Some gd) →
         expEnsemble.models e0 = [] → expEnsemble.datasets e0 = [] →
         expEnsemble._n_models e0 = 0 → expEnsemble._n_datasets e0 = 0 →
         length gm = 2 → length gd = 3 →
         expEnsemble.__len__ e = 6 ∧ length ps = 6)
    ∧ (∀ p q op oq sp sq,
         p ∈ ps → q ∈ ps →
         expProfile.get_options p w' = (w', Ok op) →
         expProfile.rendered op w' = (w', Ok sp) →
         expProfile.get_options q w' = (w', Ok oq) →
         expProfile.rendered oq w' = (w', Ok sq) →
         Forall (free_of ";") sp → Forall (free_of ";") sq → sp ≠ sq →
         ∃ mp mq,
           mp ≠ mq
           ∧ expProfile.fingerprint p w' = (w', Ok (MD5.hexdigest mp))
           ∧ expProfile.fingerprint q w' = (w', Ok (MD5.hexdigest mq))).
Proof.
  intros Hiter.
  destruct (iter_spec _ _ _ _ _ Hiter)
    as (ms & ds & _ & Hms & Hds & _ & Hnd & ->).
  exists ms, ds. split; [done|]. split; [done|]. split; [done|].
  split; [apply pairings_length|]. split; [|split].
  - intros i j m d Hm Hd. by apply pairings_lookup.
  - intros e0 model gm dataset gd -> Hm0 Hd0 Hnm Hnd0 Hgm Hgd.
    rewrite pairings_length.
    apply Forall2_length in Hms, Hds. rewrite Hms, Hds. simpl.
    rewrite Hm0, Hd0.
    destruct gm as [|a [|b [|? ?]]]; try done.
    destruct gd as [|a' [|b' [|c' [|? ?]]]]; try done.
    unfold expEnsemble.__len__. simpl. rewrite Hnm, Hnd0. done.
  - intros p q op oq sp sq _ _. apply distinct_messages.
Qed.

(** C9, amended. Iterating consumes the sources of the ensemble: after an
    iteration that ran to its end, iterating the ensemble it left yields no
    profile and changes neither the world nor the ensemble, while the length
    of the ensemble is what it was. *)
Theorem iteration_consumes_sources e w w1 e1 (ps : list expProfile.t) :
  expEnsemble.__iter__ e w = (w1, e1, Ok ps) →
  expEnsemble.__iter__ e1 w1 = (w1, e1, Ok [])
  ∧ expEnsemble.__len__ e1 = expEnsemble.__len__ e.
Proof.
  intros Hiter.
  destruct (iter_spec _ _ _ _ _ Hiter) as (ms & ds & -> & _).
  split; [|done].
  unfold expEnsemble.__iter__. simpl. by rewrite !chain_exhausted.
Qed.

(** C10. Every profile an iteration yields holds the reference of the
    ensemble's own metrics list: in any later world all of them see the
    same metric instances, and a value appended to a metric reached
    through one profile is in the result read through any other.  A metric
    starts with no value. *)
Theorem profiles_share_metrics e w w' e' (ps : list expProfile.t) :
  expEnsemble.__iter__ e w = (w', e', Ok ps) →
  (∀ p, p ∈ ps → expProfile.metrics p = expEnsemble.metrics e)
  ∧ (∀ p q w'', p ∈ ps → q ∈ ps →
       expSetting.list_items (expProfile.metrics p) w''
       = expSetting.list_items (expProfile.metrics q) w'')
  ∧ (∀ p q w1 items i x cls opts vs v,
       p ∈ ps → q ∈ ps →
       (expSetting.list_items (expProfile.metrics p) w1).2 = Ok items →
       items !! i = Some x →
       heap (store w1) !! x = Some (OMetric cls opts vs) →
       ∃ w2,
         assign x (OMetric cls opts (vs ++ [v])) w1 = (w2, Ok tt)
         ∧ (expSetting.list_items (expProfile.metrics q) w2).2 = Ok items
         ∧ (expSetting.metric_result x w2).2 = Ok (opts, vs ++ [v]))
  ∧ (∀ cls kw w0 w1 x,
       expMetric.__init__ cls kw w0 = (w1, Ok x) →
       ∃ opts, heap (store w1) !! x = Some (OMetric cls opts [])).
Proof.
  intros Hiter.
  destruct (iter_spec _ _ _ _ _ Hiter) as (ms & ds & _ & _ & _ & _ & _ & ->).
  assert (∀ p, p ∈ expEnsemble.pairings e ms ds →
               expProfile.metrics p = expEnsemble.metrics e) as Hshared.
  { intros p (m & d & _ & _ & ->)%pairings_elem. done. }
  split; [done|]. split; [|split].
  - intros p q w'' Hp Hq. by rewrite (Hshared p Hp), (Hshared q Hq).
  - intros p q w1 items i x cls opts vs v Hp Hq Hitems Hi Hx.
    rewrite (Hshared p Hp) in Hitems. rewrite (Hshared q Hq).
    eexists. split; [reflexivity|].
    unfold expSetting.list_items, expSetting.metric_result, bind, load in *.
    simpl. rewrite lookup_insert_eq. split; [|done].
    destruct (decide (x = expEnsemble.metrics e)) as [->|Hne].
    + rewrite Hx in Hitems. unfold raise in Hitems. done.
    + rewrite lookup_insert_ne by done.
      by destruct (heap (store w1) !! expEnsemble.metrics e) as [[| | | |]|].
  - intros cls kw w0 w1 x. unfold expMetric.__init__, bind at 1.
    destruct (expBase.__init__ cls kw w0) as [w2 [opts|err]]; [|done].
    unfold alloc. intros [= <- <-]. exists opts. simpl.
    apply lookup_insert_eq.
Qed.

End EnsembleIteration.

(** ** The wrapper of a task and the pool *)

Section Wrapper.

Context `{Collaborators}.

Implicit Types (w : World) (p : expProfile.t) (i : nat).

Local Abbreviation begins i :=
  {| lvl := INFO; msg := "Exp " +:+ fmt_3d i +:+ " Begins..."; exc_info := None |}.

Local Abbreviation done_ i :=
  {| lvl := INFO; msg := "Exp " +:+ fmt_3d i +:+ " Done!"; exc_info := None |}.

Local Abbreviation begun i w :=
  {| store := store w; log := log w ++ [begins i]; calls := calls w |}.

(** What the wrapper does with the two ways a run can end. *)
Lemma wrapper_cases i p w :
  _wrapper (i, p) w
  = match expProfile.run p (begun i w) with
    | (w', Ok _) =>
        ({| store := store w'; log := log w' ++ [done_ i];
            calls := calls w' |}, Ok tt)
    | (w', Raise e) =>
        ({| store := store w';
            log := (log w' ++ [{| lvl := ERROR; msg := "Exp %3d:";
                                  exc_info := Some e |}]) ++ [done_ i];
            calls := calls w' |}, Ok tt)
    end.
Proof.
  unfold _wrapper, bind, logging, try_except. simpl.
  by destruct (expProfile.run p _) as [w' [[]|e]].
Qed.

(** No exception leaves the wrapper. *)
Lemma wrapper_returns (args : nat * expProfile.t) w :
  (_wrapper args w).2 = Ok tt.
Proof.
  destruct args as [i p]. rewrite wrapper_cases.
  by destruct (expProfile.run p _) as [w' [[]|e]].
Qed.

(** The record logged for a failed run is the same at every index: its
    message is the format string, to which no index is applied. *)
Lemma wrapper_failure i p w w' (e : exn) :
  expProfile.run p (begun i w) = (w', Raise e) →
  _wrapper (i, p) w
  = ({| store := store w';
        log := log w' ++ [{| lvl := ERROR; msg := "Exp %3d:";
                             exc_info := Some e |}; done_ i];
        calls := calls w' |}, Ok tt).
Proof. intros Hrun. rewrite wrapper_cases, Hrun. by rewrite <- app_assoc. Qed.

Lemma wrappers_return (l : list (nat * expProfile.t)) w :
  (mapM _wrapper l w).2 = Ok (replicate (length l) tt).
Proof.
  revert w. induction l as [|a l IH]; intros w; [done|]. simpl.
  unfold bind at 1. pose proof (wrapper_returns a w) as Ha.
  destruct (_wrapper a w) as [w1 r]. simpl in Ha. subst r.
  unfold bind at 1. specialize (IH w1).
  destruct (mapM _wrapper l w1) as [w2 r]. simpl in IH. by subst r.
Qed.

Lemma mapM_cons_fst {A B} (f : A → M B) (a : A) (l : list A) w (y : B) :
  (f a w).2 = Ok y → (mapM f (a :: l) w).1 = (mapM f l (f a w).1).1.
Proof.
  simpl. unfold bind. destruct (f a w) as [w1 [y'|e]]; [|done].
  intros _. simpl. by destruct (mapM f l w1) as [w2 [ys|e]].
Qed.

(** Every task of a batch is wrapped and run, whatever became of the tasks
    before it. *)
Lemma wrappers_run_all (l1 l2 : list (nat * expProfile.t)) w :
  (mapM _wrapper (l1 ++ l2) w).1
  = (mapM _wrapper l2 (mapM _wrapper l1 w).1).1.
Proof.
  revert w. induction l1 as [|a l1 IH]; intros w; [done|].
  rewrite <- app_comm_cons.
  rewrite !(mapM_cons_fst _ _ _ _ tt (wrapper_returns a w)). apply IH.
Qed.

(** When [run] of the pool raises, it is a directory check or the
    iteration of an ensemble that raised, never the run of a profile. *)
Lemma pool_run_raises (pool pool' : expPool.t) w w' (e : exn) :
  expPool.run pool w = (w', pool', Raise e) →
  (mapM expPool.check_dir (elements (expPool.dirs pool)) w).2 = Raise e
  ∨ ∃ w2, (expPool.flatten (expPool.tasks pool) w2).2 = Raise e.
Proof.
  unfold expPool.run.
  destruct (mapM expPool.check_dir _ w) as [w1 [u|e1]]; [|intros [= _ _ <-]; by left].
  simpl.
  destruct (expPool.flatten _ _) as [[w3 tasks'] [ps|e3]] eqn:Hf.
  2:{ intros [= _ _ <-]. right. eexists. by rewrite Hf. }
  pose proof (wrappers_return (imap (λ i p, (i, p)) ps) w3) as Hret.
  destruct (mapM _wrapper _ w3) as [w4 [u4|e4]]; [done|done].
Qed.

End Wrapper.

(** ** The name getDefaultOption derives *)

Section DefaultOption.

Context `{Collaborators}.

Implicit Types (name rest : string) (w : World).

Lemma str_drop_drop (n m : nat) (s : string) :
  str_drop n (str_drop m s) = str_drop (m + n) s.
Proof.
  revert s. induction m as [|m IH]; intros s; [done|].
  destruct s as [|c s]; simpl; [by destruct n|apply IH].
Qed.

Lemma str_drop_app (p s : string) : str_drop (String.length p) (p +:+ s) = s.
Proof. induction p as [|c p IH]; [done|apply IH]. Qed.

Lemma prefix_app (p s : string) : String.prefix p (p +:+ s) = true.
Proof.
  induction p as [|c p IH]; simpl; [by destruct s|].
  destruct (ascii_dec c c); [apply IH|done].
Qed.

Lemma strip_role_drops name (possible : string) :
  ∃ n, strip_role name possible = str_drop n name.
Proof.
  unfold strip_role. destruct (String.prefix _ _); [eauto|by exists 0].
Qed.

Lemma derived_name_is_suffix name (possibles : list string) :
  ∃ n, foldl strip_role name possibles = str_drop n name.
Proof.
  revert name. induction possibles as [|r rs IH]; intros name; [by exists 0|].
  simpl. destruct (strip_role_drops name r) as [n ->].
  destruct (IH (str_drop n name)) as [m ->]. rewrite str_drop_drop. eauto.
Qed.

(** X1. When [getDefaultOption] returns, it returns a new [Option]
    object.  Its [name] field is a suffix of the class name it was asked
    for, whatever the section of the class says of a key [name]; every
    other field is the default the section gives for that key, and a class
    without a section has no other field. *)
Theorem default_option_has_name name w w' (r : ref) :
  getDefaultOption name w = (w', Ok r) →
  ∃ d n,
    heap (store w) !! r = None
    ∧ heap (store w') !! r = Some (OOption d)
    ∧ d !! "name" = Some (VStr (str_drop n name))
    ∧ ∀ k, k ≠ "name" →
        d !! k = Option.dict_update ∅ (default [] (config_items name)) !! k.
Proof.
  intros Hget. pose proof (getDefaultOption_cases name w) as Hc.
  cbv zeta in Hc. unfold default_fields in Hc.
  destruct (derived_name_is_suffix name roles) as [n Hn].
  destruct (config_items name) as [[|item items]|] eqn:Hcfg.
  - rewrite Hc in Hget. done.
  - destruct Hc as [l Hc]. rewrite Hc in Hget. injection Hget as <- <-.
    eexists _, n. split; [apply fresh_lookup|].
    split; [apply lookup_insert_eq|].
    split; [rewrite lookup_insert_eq, <- Hn; reflexivity|].
    intros k Hk. by rewrite lookup_insert_ne.
  - destruct Hc as [l Hc]. rewrite Hc in Hget. injection Hget as <- <-.
    eexists _, n. split; [apply fresh_lookup|].
    split; [apply lookup_insert_eq|].
    split; [rewrite lookup_insert_eq, <- Hn; reflexivity|].
    intros k Hk. by rewrite lookup_insert_ne.
Qed.

(** X2. A class whose section of defaults is there but has no item
    cannot be instantiated: no items cannot be unpacked into keys and
    values, so [getDefaultOption] raises [ValueError], and with it the
    constructor of every component, metric and setting of that class,
    whatever the keywords.  Nothing is made, changed or logged. *)
Theorem empty_section_cannot_be_instantiated (cls : string) (kw : kwargs) w :
  config_items cls = Some [] →
  getDefaultOption cls w = (w, Raise ValueError)
  ∧ expBase.new cls kw w = (w, Raise ValueError)
  ∧ expMetric.__init__ cls kw w = (w, Raise ValueError)
  ∧ expSetting.__init__ cls kw w = (w, Raise ValueError).
Proof.
  intros Hcfg.
  assert (getDefaultOption cls w = (w, Raise ValueError)) as Hget.
  { unfold getDefaultOption, bind. by rewrite Hcfg. }
  unfold expBase.new, expMetric.__init__, expSetting.__init__,
    expBase.__init__, bind. by rewrite Hget.
Qed.

Lemma strip_role_match (p possible rest : string) :
  String.length p = 3 →
  strip_role (p +:+ possible +:+ rest) possible = rest.
Proof.
  intros Hp. unfold strip_role.
  pose proof (str_drop_app p (possible +:+ rest)) as Hdrop.
  rewrite Hp in Hdrop. rewrite Hdrop, prefix_app.
  rewrite <- str_drop_drop, Hdrop. apply str_drop_app.
Qed.

Lemma strip_role_no_match name (possible : string) :
  String.prefix possible (str_drop 3 name) = false →
  strip_role name possible = name.
Proof. intros Hno. unfold strip_role. by rewrite Hno. Qed.

Lemma name_field name w w' (r : ref) :
  getDefaultOption name w = (w', Ok r) →
  ∃ d, heap (store w') !! r = Some (OOption d)
       ∧ d !! "name" = Some (VStr (foldl strip_role name roles)).
Proof.
  intros Hget. pose proof (getDefaultOption_cases name w) as Hc.
  cbv zeta in Hc. unfold default_fields in Hc.
  destruct (config_items name) as [[|item items]|] eqn:Hcfg.
  - rewrite Hc in Hget. done.
  - destruct Hc as [l Hc]. rewrite Hc in Hget. injection Hget as <- <-.
    eexists. split; [apply lookup_insert_eq|]. apply lookup_insert_eq.
  - destruct Hc as [l Hc]. rewrite Hc in Hget. injection Hget as <- <-.
    eexists. split; [apply lookup_insert_eq|]. apply lookup_insert_eq.
Qed.

Lemma well_named (p possible rest : string) :
  String.length p = 3 → possible ∈ roles →
  Forall (λ role, String.prefix role (str_drop 3 rest) = false) roles →
  foldl strip_role (p +:+ possible +:+ rest) roles = rest.
Proof.
  intros Hp Hrole Hrest. rewrite Forall_forall in Hrest.
  pose proof (str_drop_app p) as Hdrop. rewrite Hp in Hdrop.
  assert (∀ r, r ∈ roles → strip_role rest r = rest) as Hkeep.
  { intros r Hr. by apply strip_role_no_match, Hrest. }
  unfold roles in Hrole.
  repeat (apply elem_of_cons in Hrole as [->|Hrole]);
    [..|by apply elem_of_nil in Hrole];
    unfold roles; simpl foldl;
    repeat first
      [ rewrite (strip_role_match p _ rest Hp)
      | rewrite (strip_role_no_match (p +:+ _ +:+ rest))
          by (rewrite Hdrop; reflexivity)
      | rewrite Hkeep by (unfold roles; set_solver) ];
    reflexivity.
Qed.

(** X3. For a class named by the convention (three characters, one of
    the roles [Dataset], [Model], [Metric], [Setting], then a rest that has
    no role after its own first three characters) the [name] field of the
    default options is that rest. *)
Theorem well_named_class_gets_its_suffix (p possible rest : string) w w'
    (r : ref) :
  String.length p = 3 → possible ∈ roles →
  Forall (λ role, String.prefix role (str_drop 3 rest) = false) roles →
  getDefaultOption (p +:+ possible +:+ rest) w = (w', Ok r) →
  ∃ d, heap (store w') !! r = Some (OOption d)
       ∧ d !! "name" = Some (VStr rest).
Proof.
  intros Hp Hrole Hrest Hget.
  destruct (name_field _ _ _ _ Hget) as (d & Hr & Hname).
  exists d. split; [done|]. by rewrite Hname, well_named.
Qed.

(** X4. The loop over the roles works on the name as shortened so far.
    A name without a role after its first three characters is kept whole;
    a name that stacks [Dataset] and [Model], each after three characters,
    loses both, and what is left goes through the last two rounds. *)
Theorem roles_are_stripped_one_after_the_other (name p q rest : string) :
  String.length p = 3 → String.length q = 3 →
  Forall (λ role, String.prefix role (str_drop 3 name) = false) roles →
  foldl strip_role name roles = name
  ∧ foldl strip_role (p +:+ "Dataset" +:+ q +:+ "Model" +:+ rest) roles
    = foldl strip_role rest ["Metric"; "Setting"].
Proof.
  intros Hp Hq Hno. rewrite Forall_forall in Hno. split.
  - unfold roles in *. simpl.
    by rewrite !(strip_role_no_match name) by (apply Hno; set_solver).
  - unfold roles. simpl foldl.
    by rewrite (strip_role_match p), (strip_role_match q).
Qed.

End DefaultOption.

(** ** Constructing an instance *)

Section Construction.

Context `{Collaborators}.

Implicit Types (cls : string) (kw : kwargs) (w : World).

Lemma new_known cls kw w (d : Option.dict) :
  default_fields cls = Some d → Option.known d kw →
  ∃ x, (expBase.new cls kw w).2 = Ok x.
Proof.
  intros Hd Hkn. pose proof (getDefaultOption_cases cls w) as Hc.
  cbv zeta in Hc. rewrite Hd in Hc. destruct Hc as [l Hc].
  unfold expBase.new, expBase.__init__, bind. rewrite Hc.
  erewrite update_run by (simpl; apply lookup_insert_eq).
  rewrite update_loop_known by done. simpl. eauto.
Qed.

(** X5. Instantiating a component of class [cls] with the keywords [kw]
    succeeds exactly when the class has default options (its section is
    absent, or has an item) and every keyword is one of their fields, the
    field [name] included. *)
Theorem new_succeeds_iff cls kw w :
  (∃ x, (expBase.new cls kw w).2 = Ok x)
  ↔ ∃ d, default_fields cls = Some d ∧ Option.known d kw.
Proof.
  split.
  - intros [x Hx]. destruct (new_spec cls kw w) as [_ Hnew].
    destruct (Hnew x Hx) as (_ & opts & d & Hd & Hkn & _). eauto.
  - intros (d & Hd & Hkn). by eapply new_known.
Qed.

(** X6. Given a keyword that is not a field, the constructor raises the
    [KeyError] that names the first such keyword met.  The option object
    has been made by then, and is the only new object; the keywords met
    before are written in it.  No file is touched and no collaborator
    called. *)
Theorem new_rejects_unknown_keyword cls kw w (d : Option.dict)
    (pre post : kwargs) (k : string) (v : value) :
  default_fields cls = Some d →
  kw = pre ++ (k, v) :: post →
  Option.known d pre →
  d !! k = None →
  (expBase.new cls kw w).2
  = Raise (KeyError ("'" +:+ k +:+ "' is not a valid parameter."))
  ∧ heap (store (expBase.new cls kw w).1)
    = <[fresh (dom (heap (store w))) := OOption (Option.dict_update d pre)]>
        (heap (store w))
  ∧ files (store (expBase.new cls kw w).1) = files (store w)
  ∧ calls (expBase.new cls kw w).1 = calls w.
Proof.
  intros Hd -> Hkn Hk. pose proof (getDefaultOption_cases cls w) as Hc.
  cbv zeta in Hc. rewrite Hd in Hc. destruct Hc as [l Hc].
  unfold expBase.new, expBase.__init__, bind. rewrite Hc.
  erewrite update_run by (simpl; apply lookup_insert_eq).
  rewrite update_loop_unknown by done. simpl.
  by rewrite insert_insert_eq.
Qed.

End Construction.

(** ** The order of the keywords *)

Section KeywordOrder.

Implicit Types (d : Option.dict) (kw : kwargs).

Lemma known_perm d kw kw' : kw ≡ₚ kw' → Option.known d kw → Option.known d kw'.
Proof.
  intros Hp Hkn k Hk. apply Hkn. by rewrite Hp.
Qed.

Lemma dict_update_perm d kw kw' :
  NoDup kw.*1 → kw ≡ₚ kw' →
  Option.dict_update d kw = Option.dict_update d kw'.
Proof.
  intros Hnd Hp. apply map_eq. intros k.
  assert (NoDup kw'.*1) as Hnd' by by rewrite <- Hp.
  destruct (decide (k ∈ kw.*1)) as [Hin|Hout].
  - apply list_elem_of_fmap in Hin as ([k' v] & -> & Hin). simpl.
    rewrite (dict_update_lookup_in d kw k' v) by done.
    symmetry. apply dict_update_lookup_in; [done|]. by rewrite <- Hp.
  - rewrite !dict_update_lookup_notin; [done| by rewrite <- Hp |done].
Qed.

(** X7. [Option.update] does not depend on the order in which the
    keywords are traversed: when every keyword is a field, and no key is
    given twice, two orders of the same keywords leave the same world and
    the same outcome. *)
Theorem update_ignores_keyword_order (w : World) (self : ref) d kw kw' :
  heap (store w) !! self = Some (OOption d) →
  NoDup kw.*1 →
  kw ≡ₚ kw' →
  Option.known d kw →
  Option.update self kw' w = Option.update self kw w.
Proof.
  intros Hself Hnd Hp Hkn.
  rewrite !(update_run w self d _ Hself).
  rewrite !update_loop_known by eauto using known_perm.
  simpl. by rewrite (dict_update_perm d kw kw').
Qed.

End KeywordOrder.

(** ** The order of the rendered fields *)

Section Rendering.

#[local] Instance key_le_total : Total Option.key_le.
Proof. intros x y. unfold Option.key_le. apply String.leb_total. Qed.


End Rendering.

(** ** Settings and their metrics *)

Section Settings.

Context `{Collaborators}.

Implicit Types (w : World) (s ms : ref) (items : list ref).

Lemma metric_results w items :
  Forall (λ x, ∃ r, is_metric w x r) items →
  ∃ res, mapM expSetting.metric_result items w = (w, Ok res)
         ∧ Forall2 (is_metric w) items res.
Proof.
  induction 1 as [|x items [r [cls Hx]] _ (res & Hres & Hall)].
  - exists []. by split; [|constructor].
  - exists (r :: res). split.
    + simpl. unfold bind at 1.
      unfold expSetting.metric_result at 1, bind, load. rewrite Hx.
      destruct r as [opts vs]. simpl in *. unfold ret at 1.
      unfold bind. rewrite Hres. reflexivity.
    + constructor; [by exists cls|done].
Qed.

Lemma metric_results_fail w items :
  Exists (λ x, ∀ r, ¬ is_metric w x r) items →
  mapM expSetting.metric_result items w = (w, Raise AttributeError).
Proof.
  induction items as [|x items IH]; intros Hex; [by apply Exists_nil in Hex|].
  simpl. unfold bind at 1.
  destruct (heap (store w) !! x) as [o|] eqn:Hx.
  - destruct o as [d|l|c o|c o vs|c o a b m];
      try (unfold expSetting.metric_result, bind, load; rewrite Hx; reflexivity).
    unfold expSetting.metric_result at 1, bind at 1, load. rewrite Hx.
    unfold ret at 1. unfold bind at 1.
    apply Exists_cons in Hex as [Hx'|Hex].
    + exfalso. apply (Hx' (o, vs)). by exists c.
    + by rewrite (IH Hex).
  - unfold expSetting.metric_result, bind, load. by rewrite Hx.
Qed.

(** X9. [setup] binds a setting to the dataset, the model and the
    metrics list it is given, the list itself and no copy of it, and
    changes nothing else.  [get_metrics_result] then reports the options
    and the values of the items of that list, one pair for each item and
    in their order, leaving the world as it is; it raises
    [AttributeError] when an item is not a metric. *)
Theorem bound_metrics_are_reported_in_order
    w s (dataset model : ref) ms items (cls : string) (opts : ref)
    (d0 m0 : option ref) (ms0 : ref) :
  heap (store w) !! s = Some (OSetting cls opts d0 m0 ms0) →
  heap (store w) !! ms = Some (OList items) →
  ∃ w1,
    expSetting.setup s dataset model ms w = (w1, Ok tt)
    ∧ heap (store w1)
      = <[s := OSetting cls opts (Some dataset) (Some model) ms]>
          (heap (store w))
    ∧ (Forall (λ x, ∃ r, is_metric w x r) items →
       ∃ res, expSetting.get_metrics_result s w1 = (w1, Ok res)
              ∧ Forall2 (is_metric w) items res)
    ∧ (Exists (λ x, ∀ r, ¬ is_metric w x r) items →
       expSetting.get_metrics_result s w1 = (w1, Raise AttributeError)).
Proof.
  intros Hs Hms.
  assert (s ≠ ms) as Hne by (intros ->; congruence).
  eexists. split.
  { unfold expSetting.setup, bind, load. rewrite Hs. reflexivity. }
  split; [reflexivity|].
  set (w1 := set_heap _ w).
  assert (∀ x r, is_metric w x r ↔ is_metric w1 x r) as Hsame.
  { intros x r. unfold is_metric, w1. simpl.
    destruct (decide (x = s)) as [->|Hx].
    - rewrite lookup_insert_eq, Hs. split; intros [c Hc]; done.
    - by rewrite lookup_insert_ne. }
  assert (expSetting.list_items ms w1 = (w1, Ok items)) as Hitems.
  { unfold expSetting.list_items, bind, load. unfold w1 at 1. simpl.
    rewrite lookup_insert_ne by done. by rewrite Hms. }
  assert (expSetting.get_metrics_result s w1
          = mapM expSetting.metric_result items w1) as Hget.
  { unfold expSetting.get_metrics_result, bind at 1, load.
    unfold w1 at 1. simpl. rewrite lookup_insert_eq.
    unfold bind. by rewrite Hitems. }
  split.
  - intros Hall. destruct (metric_results w1 items) as (res & Hres & Hres2).
    { eapply Forall_impl; [exact Hall|]. intros x [r Hr]. exists r.
      by apply Hsame. }
    exists res. rewrite Hget. split; [done|].
    eapply Forall2_impl; [exact Hres2|]. intros x r. by apply Hsame.
  - intros Hex. rewrite Hget. apply metric_results_fail.
    eapply Exists_impl; [exact Hex|]. intros x Hx r Hr. apply (Hx r).
    by apply Hsame.
Qed.

Lemma init_ok (cls : string) (kw : kwargs) w w1 (opts : ref) :
  expBase.__init__ cls kw w = (w1, Ok opts) →
  ∃ d, default_fields cls = Some d
       ∧ Option.known d kw
       ∧ opts = fresh (dom (heap (store w)))
       ∧ heap (store w1)
         = <[opts := OOption (Option.dict_update d kw)]> (heap (store w))
       ∧ files (store w1) = files (store w)
       ∧ calls w1 = calls w.
Proof.
  pose proof (getDefaultOption_cases cls w) as Hc. cbv zeta in Hc.
  unfold expBase.__init__, bind.
  destruct (default_fields cls) as [d|]; [|by rewrite Hc].
  destruct Hc as [l ->].
  erewrite update_run by (simpl; apply lookup_insert_eq).
  simpl. rewrite insert_insert_eq.
  destruct (Option.update_loop d kw) as [d' [[]|e]] eqn:Hloop; simpl; [|done].
  intros [= <- <-]. exists d.
  pose proof (update_loop_ok d kw) as Hkn. rewrite Hloop in Hkn.
  specialize (Hkn eq_refl).
  pose proof (update_loop_known d kw Hkn) as Hd'. rewrite Hloop in Hd'.
  injection Hd' as ->. done.
Qed.

(** X10. A new setting is bound to no dataset and to no model, and
    holds an empty metrics list of its own, made with it:
    [get_metrics_result] returns the empty list. *)
Theorem new_setting_is_unbound (cls : string) (kw : kwargs) w w' s :
  expSetting.__init__ cls kw w = (w', Ok s) →
  ∃ opts metrics,
    heap (store w') !! s = Some (OSetting cls opts None None metrics)
    ∧ heap (store w') !! metrics = Some (OList [])
    ∧ heap (store w) !! metrics = None
    ∧ heap (store w) !! s = None
    ∧ expSetting.get_metrics_result s w' = (w', Ok []).
Proof.
  unfold expSetting.__init__, bind at 1.
  destruct (expBase.__init__ cls kw w) as [w1 [opts|e]] eqn:Hinit; [|done].
  destruct (init_ok _ _ _ _ _ Hinit) as (d & _ & _ & Hopts & Hheap & _).
  unfold bind, alloc. simpl. intros [= <- <-].
  set (h1 := heap (store w1)) in *.
  set (l := fresh (dom h1)).
  set (h2 := <[l := OList []]> h1).
  set (s := fresh (dom h2)).
  pose proof (fresh_lookup h1) as Hl. fold l in Hl.
  pose proof (fresh_lookup h2) as Hs. fold s in Hs.
  assert (s ≠ l) as Hne.
  { intros Heq. rewrite Heq in Hs. unfold h2 in Hs.
    by rewrite lookup_insert_eq in Hs. }
  assert (heap (store w) ⊆ h1) as Hsub.
  { rewrite Hheap. apply insert_subseteq. rewrite Hopts. apply fresh_lookup. }
  assert (h1 ⊆ h2) as Hsub2 by by apply insert_subseteq.
  exists opts, l. simpl.
  split; [apply lookup_insert_eq|].
  split; [rewrite lookup_insert_ne by done; apply lookup_insert_eq|].
  split; [by eapply lookup_weaken_None|].
  split; [eapply lookup_weaken_None; [exact Hs|by etrans]|].
  unfold expSetting.get_metrics_result, expSetting.list_items, bind, load.
  simpl. rewrite lookup_insert_eq.
  assert (heap (store (set_heap (<[s:=OSetting cls opts None None l]> h2)
                                (set_heap h2 w1))) !! l
          = Some (OList [])) as ->.
  { simpl. rewrite lookup_insert_ne by done. apply lookup_insert_eq. }
  reflexivity.
Qed.

End Settings.

(** ** Ensembles: what was not set, what is added late, what cannot be made *)

Section EnsembleEdges.

Context `{Collaborators}.

Implicit Types (w : World) (e : expEnsemble.t) (p : expProfile.t).

Lemma get_opts_raises (x : ref) w (e : exn) :
  (get_opts x w).2 = Raise e → e = AttributeError.
Proof.
  unfold get_opts, bind, load.
  destruct (heap (store w) !! x) as [[]|]; simpl; intros [=]; done.
Qed.

Lemma get_options_without_setting p w :
  expProfile.setting p = None →
  expProfile.get_options p w = (w, Raise AttributeError).
Proof.
  intros Hnone. apply reads_eq; [apply reads_get_options|].
  unfold expProfile.get_options. unfold bind at 1.
  pose proof (get_opts_raises (expProfile.dataset p) w) as Hd.
  destruct (get_opts (expProfile.dataset p) w) as [w1 [d|e]];
    [|simpl; f_equal; by apply Hd].
  unfold bind at 1.
  pose proof (get_opts_raises (expProfile.model p) w1) as Hm.
  destruct (get_opts (expProfile.model p) w1) as [w2 [m|e]];
    [|simpl; f_equal; by apply Hm].
  unfold bind at 1. by rewrite Hnone.
Qed.

(** X11. A profile yielded by an ensemble on which [set_setting] was
    not called cannot run: [run] raises [AttributeError] while it collects
    the options, before anything is bound, run, saved or logged.  Under
    [_wrapper] the failure is logged between the two records of the task,
    and the wrapper returns. *)
Theorem profile_without_setting_cannot_run e w w' e' (ps : list expProfile.t) :
  expEnsemble.setting e = None →
  expEnsemble.__iter__ e w = (w', e', Ok ps) →
  Forall (λ p, ∀ w1 i,
            expProfile.run p w1 = (w1, Raise AttributeError)
            ∧ _wrapper (i, p) w1
              = ({| store := store w1;
                    log := log w1
                      ++ [{| lvl := INFO;
                             msg := "Exp " +:+ fmt_3d i +:+ " Begins...";
                             exc_info := None |};
                          {| lvl := ERROR; msg := "Exp %3d:";
                             exc_info := Some AttributeError |};
                          {| lvl := INFO;
                             msg := "Exp " +:+ fmt_3d i +:+ " Done!";
                             exc_info := None |}];
                    calls := calls w1 |}, Ok tt)) ps.
Proof.
  intros Hnone Hiter.
  destruct (iter_spec _ _ _ _ _ Hiter) as (ms & ds & _ & _ & _ & _ & _ & ->).
  apply Forall_forall. intros p (m & d & _ & _ & ->)%pairings_elem.
  assert (∀ w1, expProfile.run (expEnsemble.profile e m d) w1
                = (w1, Raise AttributeError)) as Hrun.
  { intros w1. unfold expProfile.run, bind at 1.
    by rewrite get_options_without_setting. }
  intros w1 i. split; [apply Hrun|].
  rewrite (wrapper_failure i _ w1 _ AttributeError) by apply Hrun.
  simpl. by rewrite <- app_assoc.
Qed.

(** X12. The profiles an ensemble has yielded hold the metrics list of
    the ensemble: metrics added to the ensemble later are metrics of every
    profile yielded before. *)
Theorem late_metrics_reach_yielded_profiles e w w' e'
    (ps : list expProfile.t) w2 (items args : list ref) :
  expEnsemble.__iter__ e w = (w', e', Ok ps) →
  (expSetting.list_items (expEnsemble.metrics e) w2).2 = Ok items →
  ∃ w'',
    expEnsemble.add_metrics e' args w2 = (w'', Ok tt)
    ∧ Forall (λ p, expSetting.list_items (expProfile.metrics p) w''
                   = (w'', Ok (items ++ args))) ps.
Proof.
  intros Hiter Hitems.
  destruct (iter_spec _ _ _ _ _ Hiter) as (ms & ds & -> & _ & _ & _ & _ & ->).
  apply (reads_eq _ _ _ (reads_list_items _)) in Hitems.
  eexists. split.
  { unfold expEnsemble.add_metrics. simpl. unfold bind. rewrite Hitems.
    reflexivity. }
  apply Forall_forall. intros p (m & d & _ & _ & ->)%pairings_elem. simpl.
  unfold expSetting.list_items, bind, load. simpl.
  by rewrite lookup_insert_eq.
Qed.

(** X13. When one parameter set of one grid cannot instantiate its
    class, because a keyword is not a field or the class has an empty
    section, iterating the ensemble raises, and no profile is yielded: all
    models and all datasets are made before the first profile. *)
Theorem bad_parameter_set_fails_the_iteration e w (v : string * kwargs) :
  v ∈ variants (expEnsemble.models e) ++ variants (expEnsemble.datasets e) →
  (∀ d, default_fields v.1 = Some d → ¬ Option.known d v.2) →
  ∃ x, (expEnsemble.__iter__ e w).2 = Raise x.
Proof.
  intros Hv Hbad.
  destruct (expEnsemble.__iter__ e w) as [[w' e'] [ps|x]] eqn:Hiter; [|eauto].
  exfalso.
  destruct (iter_spec _ _ _ _ _ Hiter) as (ms & ds & _ & Hms & Hds & _).
  pose proof (Forall2_app Hms Hds) as Hall.
  apply list_elem_of_lookup in Hv as [i Hi].
  destruct (Forall2_lookup_r _ _ _ _ _ Hall Hi) as (x & _ & Hinst).
  destruct Hinst as (opts & d & Hd & Hkn & _). by apply (Hbad d).
Qed.

Lemma variants_app (l1 l2 : list expEnsemble.source) :
  variants (l1 ++ l2) = variants l1 ++ variants l2.
Proof. unfold variants. apply bind_app. Qed.

Lemma or_default_length (g : option ParamsGrid.t) :
  max 1 (length (expEnsemble.or_default g))
  = length (expEnsemble.or_default g).
Proof. by destruct g as [[|para g]|]. Qed.

Lemma counted_step e (c : ensemble_call) :
  counted e → counted (ensemble_step e c).
Proof.
  intros [Hm Hd]. destruct c as [m g|d g|s]; split; simpl; try done.
  - rewrite variants_app, length_app, Hm, or_default_length.
    rewrite variants_cons, length_app, length_fmap. simpl. lia.
  - rewrite variants_app, length_app, Hd, or_default_length.
    rewrite variants_cons, length_app, length_fmap. simpl. lia.
Qed.

Lemma counted_script e (cs : list ensemble_call) :
  counted e → counted (ensemble_script e cs).
Proof.
  revert e. induction cs as [|c cs IH]; intros e He; [done|].
  apply IH. by apply counted_step.
Qed.

(** X14. For an ensemble made by [__init__] and any calls of
    [add_model], [add_dataset] and [set_setting], an iteration that comes
    to its end yields as many profiles as [len] says; and [len] says the
    same after the iteration as before. *)
Theorem length_is_the_number_of_profiles
    (save_dir : string) (overwrite : bool) (cs : list ensemble_call)
    w0 w1 e0 w w' e' (ps : list expProfile.t) :
  expEnsemble.__init__ save_dir overwrite w0 = (w1, Ok e0) →
  expEnsemble.__iter__ (ensemble_script e0 cs) w = (w', e', Ok ps) →
  length ps = expEnsemble.__len__ (ensemble_script e0 cs)
  ∧ expEnsemble.__len__ e' = length ps.
Proof.
  rewrite init_run. intros [= _ <-] Hiter.
  destruct (iter_spec _ _ _ _ _ Hiter) as (ms & ds & -> & Hms & Hds & _ & _ & ->).
  rewrite pairings_length.
  apply Forall2_length in Hms, Hds.
  match type of Hiter with
  | expEnsemble.__iter__ (ensemble_script ?e ?cs) _ = _ =>
      destruct (counted_script e cs) as [Hm Hd]; [by split|]
  end.
  unfold expEnsemble.__len__. simpl. rewrite Hm, Hd, Hms, Hds. done.
Qed.

End EnsembleEdges.

(** ** Pools *)

Section Pools.

Context `{Collaborators}.

Implicit Types (w : World) (pool : expPool.t) (ts : list expPool.task).

(** X15. After any calls of [add] on a new pool, the tasks are what
    was added, in that order; the directories are the set of the save
    directories of the tasks; [len] is the sum of the lengths of the
    tasks, a single profile counting for one; the number of workers is as
    given. *)
Theorem pool_registers_every_directory (n : nat) ts :
  expPool.tasks (foldl expPool.add (expPool.__init__ n) ts) = ts
  ∧ expPool.dirs (foldl expPool.add (expPool.__init__ n) ts)
    = list_to_set (expPool.task_save_dir <$> ts)
  ∧ expPool.__len__ (foldl expPool.add (expPool.__init__ n) ts)
    = sum_list (expPool.task_len <$> ts)
  ∧ expPool.n_workers (foldl expPool.add (expPool.__init__ n) ts) = n.
Proof.
  assert (∀ pool,
    expPool.tasks (foldl expPool.add pool ts) = expPool.tasks pool ++ ts
    ∧ expPool.dirs (foldl expPool.add pool ts)
      = expPool.dirs pool ∪ list_to_set (expPool.task_save_dir <$> ts)
    ∧ expPool.n_workers (foldl expPool.add pool ts) = expPool.n_workers pool)
    as Hgen.
  { induction ts as [|t ts IH]; intros pool.
    - simpl. rewrite app_nil_r. split; [done|].
      split; [by rewrite (right_id_L ∅ (∪))|done].
    - simpl foldl. destruct (IH (expPool.add pool t)) as (-> & -> & ->).
      simpl. rewrite <- app_assoc. split; [done|].
      split; [by rewrite (assoc_L (∪))|done]. }
  destruct (Hgen (expPool.__init__ n)) as (Ht & Hd & Hn).
  unfold expPool.__len__. rewrite Ht, Hd, Hn. simpl.
  split; [done|]. split; [by rewrite (left_id_L ∅ (∪))|done].
Qed.

Lemma iter_exhausted (e : expEnsemble.t) w :
  expEnsemble.__iter__
    (expEnsemble.with_sources e (exhausted <$> expEnsemble.models e)
                                (exhausted <$> expEnsemble.datasets e)) w
  = (w, expEnsemble.with_sources e (exhausted <$> expEnsemble.models e)
                                   (exhausted <$> expEnsemble.datasets e),
     Ok []).
Proof. unfold expEnsemble.__iter__. simpl. by rewrite !chain_exhausted. Qed.

Lemma flatten_ok ts w w' ts' (ps : list expProfile.t) :
  expPool.flatten ts w = (w', ts', Ok ps) →
  expPool.task_len <$> ts' = expPool.task_len <$> ts
  ∧ ∀ w2, expPool.flatten ts' w2 = (w2, ts', Ok (singles ts)).
Proof.
  revert w w' ts' ps. induction ts as [|[p|e] ts IH]; intros w w' ts' ps; simpl.
  - by intros [= <- <- <-].
  - destruct (expPool.flatten ts w) as [[w1 ts1] [qs|x]] eqn:Hf; [|done].
    intros [= <- <- <-]. destruct (IH _ _ _ _ Hf) as [Hlen Hagain].
    split; [simpl; by f_equal|].
    intros w2. simpl. by rewrite Hagain.
  - destruct (expEnsemble.__iter__ e w) as [[w1 e1] [qs|x]] eqn:Hi; [|done].
    destruct (expPool.flatten ts w1) as [[w2 ts2] [rs|x]] eqn:Hf; [|done].
    intros [= <- <- <-]. destruct (IH _ _ _ _ Hf) as [Hlen Hagain].
    destruct (iter_spec _ _ _ _ _ Hi) as (ms & ds & -> & _).
    split; [simpl; by f_equal|].
    intros w3. simpl. by rewrite iter_exhausted, Hagain.
Qed.

(** X16. A run of a pool that returns leaves [len] and the directories
    of the pool as they were, but every ensemble among its tasks is used
    up: chaining the tasks once more gives the profiles that were added
    one by one, and no other. *)
Theorem second_run_skips_ensembles pool w w1 (pool1 : expPool.t) :
  expPool.run pool w = (w1, pool1, Ok tt) →
  expPool.__len__ pool1 = expPool.__len__ pool
  ∧ expPool.dirs pool1 = expPool.dirs pool
  ∧ ∀ w2, expPool.flatten (expPool.tasks pool1) w2
          = (w2, expPool.tasks pool1, Ok (singles (expPool.tasks pool))).
Proof.
  unfold expPool.run.
  destruct (mapM expPool.check_dir _ w) as [w2 [u|x]]; [|done]. simpl.
  destruct (expPool.flatten _ _) as [[w3 ts'] [ps|x]] eqn:Hf; [|done].
  destruct (mapM _wrapper _ w3) as [w4 [u4|x]]; [|done].
  intros [= <- <-]. destruct (flatten_ok _ _ _ _ _ Hf) as [Hlen Hagain].
  unfold expPool.__len__. simpl. by rewrite Hlen.
Qed.

(** *** The log only grows *)

Lemma logs_reads {A} (c : M A) : reads c → logs c.
Proof. intros Hc w. exists []. by rewrite Hc, app_nil_r. Qed.

Lemma logs_bind {A B} (c : M A) (k : A → M B) :
  logs c → (∀ a, logs (k a)) → logs (bind c k).
Proof.
  intros Hc Hk w. unfold bind. destruct (Hc w) as [l1 Hl1].
  destruct (c w) as [w1 [a|e]]; simpl in *; [|eauto].
  destruct (Hk a w1) as [l2 Hl2]. exists (l1 ++ l2).
  by rewrite Hl2, Hl1, app_assoc.
Qed.

Lemma logs_logging (l : level) (m : string) (e : option exn) :
  logs (logging l m e).
Proof. intros w. by eexists. Qed.

Lemma logs_record_call (c : call) : logs (record_call c).
Proof. intros w. exists []. by rewrite app_nil_r. Qed.

Lemma logs_assign (r : ref) (o : obj) : logs (assign r o).
Proof. intros w. exists []. by rewrite app_nil_r. Qed.

Lemma logs_extern {A} (f : Store → Store * outcome A) : logs (extern f).
Proof.
  intros w. exists []. unfold extern. destruct (f (store w)).
  by rewrite app_nil_r.
Qed.

Lemma logs_try_except {A} (c : M A) (handles : exn → bool) (h : exn → M A) :
  logs c → (∀ e, logs (h e)) → logs (try_except c handles h).
Proof.
  intros Hc Hh w. unfold try_except. destruct (Hc w) as [l1 Hl1].
  destruct (c w) as [w1 [a|e]]; simpl in *; [eauto|].
  destruct (handles e); [|eauto].
  destruct (Hh e w1) as [l2 Hl2]. exists (l1 ++ l2).
  by rewrite Hl2, Hl1, app_assoc.
Qed.

Lemma logs_setup (s d m ms : ref) : logs (expSetting.setup s d m ms).
Proof.
  apply logs_bind; [apply logs_reads, reads_load|].
  intros []; first [apply logs_assign | apply logs_reads, reads_raise].
Qed.

Lemma logs_run_and_save (p : expProfile.t) (o : options) (filename : string) :
  logs (expProfile.run_and_save p o filename).
Proof.
  unfold expProfile.run_and_save.
  destruct (expProfile.setting p) as [s|]; [|apply logs_reads, reads_raise].
  apply logs_bind; [apply logs_record_call|intros _].
  apply logs_bind; [apply logs_setup|intros _].
  apply logs_bind; [apply logs_record_call|intros _].
  apply logs_bind; [apply logs_extern|intros v].
  apply logs_bind; [apply logs_reads, reads_get_metrics_result|intros mr].
  apply logs_try_except; [|intros e; apply logs_logging].
  apply logs_bind; [apply logs_record_call|intros _].
  apply logs_bind; [apply logs_extern|intros _]. apply logs_logging.
Qed.

Lemma logs_run (p : expProfile.t) : logs (expProfile.run p).
Proof.
  unfold expProfile.run.
  apply logs_bind; [apply logs_reads, reads_get_options|intros o].
  apply logs_bind; [apply logs_reads, reads_message|intros m].
  apply logs_bind.
  { destruct (expProfile.overwrite p); apply logs_reads; [apply reads_ret|done]. }
  intros []; [apply logs_logging|apply logs_run_and_save].
Qed.

Local Abbreviation begins i :=
  {| lvl := INFO; msg := "Exp " +:+ fmt_3d i +:+ " Begins..."; exc_info := None |}.

Local Abbreviation done_ i :=
  {| lvl := INFO; msg := "Exp " +:+ fmt_3d i +:+ " Done!"; exc_info := None |}.

Lemma wrapper_brackets (i : nat) (p : expProfile.t) w :
  ∃ mid, log (_wrapper (i, p) w).1 = log w ++ begins i :: mid ++ [done_ i].
Proof.
  rewrite wrapper_cases.
  destruct (logs_run p
    {| store := store w; log := log w ++ [begins i]; calls := calls w |})
    as [l Hl].
  destruct (expProfile.run p _) as [w' [[]|e]]; simpl in *.
  - exists l. rewrite Hl, <- !app_assoc. reflexivity.
  - exists (l ++ [{| lvl := ERROR; msg := "Exp %3d:"; exc_info := Some e |}]).
    rewrite Hl, <- !app_assoc. reflexivity.
Qed.

Lemma wrappers_bracket (l : list (nat * expProfile.t)) w :
  ∃ segs,
    log (mapM _wrapper l w).1 = log w ++ concat segs
    ∧ Forall2 (λ a seg, ∃ mid, seg = begins a.1 :: mid ++ [done_ a.1]) l segs.
Proof.
  revert w. induction l as [|[i p] l IH]; intros w.
  - exists []. simpl. by rewrite app_nil_r.
  - rewrite (mapM_cons_fst _ _ _ _ tt (wrapper_returns (i, p) w)).
    destruct (wrapper_brackets i p w) as [mid Hmid].
    destruct (IH (_wrapper (i, p) w).1) as (segs & Hlog & Hall).
    exists ((begins i :: mid ++ [done_ i]) :: segs). split.
    + rewrite Hlog, Hmid. simpl. by rewrite <- app_assoc.
    + constructor; [by exists mid|done].
Qed.

(** X17. [_wrapper] on the enumerated profiles, one after the other:
    every call returns, whatever the run of the profile does, and the log
    grows by one segment for each profile, in order; the segment of index
    [i] begins with the record [Exp i Begins...] and ends with the record
    [Exp i Done!]. *)
Theorem every_task_begins_and_is_done (ps : list expProfile.t) w :
  ∃ segs,
    (mapM _wrapper (imap (λ i p, (i, p)) ps) w).2
    = Ok (replicate (length ps) tt)
    ∧ log (mapM _wrapper (imap (λ i p, (i, p)) ps) w).1
      = log w ++ concat segs
    ∧ length segs = length ps
    ∧ ∀ i seg, segs !! i = Some seg →
        ∃ mid, seg = begins i :: mid ++ [done_ i].
Proof.
  destruct (wrappers_bracket (imap (λ i p, (i, p)) ps) w)
    as (segs & Hlog & Hall).
  exists segs. split.
  { rewrite wrappers_return. by rewrite length_imap. }
  split; [done|]. split.
  { apply Forall2_length in Hall. by rewrite length_imap in Hall. }
  intros i seg Hseg.
  destruct (Forall2_lookup_r _ _ _ _ _ Hall Hseg) as ([j p] & Hj & Hmid).
  rewrite list_lookup_imap in Hj.
  destruct (ps !! i); [|done]. by injection Hj as <- <-.
Qed.

End Pools.

(** ** What the fingerprint reads *)

Section FingerprintReads.

Implicit Types (w : World) (p : expProfile.t) (x : ref).

Lemma bind_reads_snd {A B} (c : M A) (k : A → M B) w :
  reads c →
  (bind c k w).2
  = match (c w).2 with Ok a => (k a w).2 | Raise e => Raise e end.
Proof.
  intros Hc. unfold bind. specialize (Hc w).
  destruct (c w) as [w1 [a|e]]; simpl in *; by subst.
Qed.

Section Agree.

Variables w w' : World.

Hypothesis Hfacets :
  facet_of <$> heap (store w) = facet_of <$> heap (store w').

Lemma facet_lookup x :
  facet_of <$> heap (store w) !! x = facet_of <$> heap (store w') !! x.
Proof. by rewrite <- !lookup_fmap, Hfacets. Qed.

Lemma get_opts_agree x : (get_opts x w').2 = (get_opts x w).2.
Proof.
  unfold get_opts, bind, load. pose proof (facet_lookup x) as Hx.
  destruct (heap (store w) !! x) as [[]|], (heap (store w') !! x) as [[]|];
    simpl in *; congruence.
Qed.

Lemma list_items_agree x :
  (expSetting.list_items x w').2 = (expSetting.list_items x w).2.
Proof.
  unfold expSetting.list_items, bind, load. pose proof (facet_lookup x) as Hx.
  destruct (heap (store w) !! x) as [[]|], (heap (store w') !! x) as [[]|];
    simpl in *; congruence.
Qed.

Lemma str_agree x : (Option.__str__ x w').2 = (Option.__str__ x w).2.
Proof.
  unfold Option.__str__, Option.fields, bind, load.
  pose proof (facet_lookup x) as Hx.
  destruct (heap (store w) !! x) as [[]|], (heap (store w') !! x) as [[]|];
    simpl in *; congruence.
Qed.

Lemma mapM_agree {A B} (f : A → M B) (l : list A) :
  (∀ a, reads (f a)) → (∀ a, (f a w').2 = (f a w).2) →
  (mapM f l w').2 = (mapM f l w).2.
Proof.
  intros Hr Hf. induction l as [|a l IH]; [done|]. simpl.
  rewrite !bind_reads_snd by done. rewrite Hf.
  destruct (f a w).2 as [b|e]; [|done].
  rewrite !bind_reads_snd by by apply reads_mapM. rewrite IH.
  by destruct (mapM f l w).2.
Qed.

Lemma get_options_agree p :
  (expProfile.get_options p w').2 = (expProfile.get_options p w).2.
Proof.
  unfold expProfile.get_options.
  rewrite !(bind_reads_snd (get_opts (expProfile.dataset p)))
    by apply reads_get_opts.
  rewrite get_opts_agree. destruct (get_opts _ w).2 as [d|e]; [|done].
  rewrite !(bind_reads_snd (get_opts (expProfile.model p)))
    by apply reads_get_opts.
  rewrite get_opts_agree. destruct (get_opts _ w).2 as [m|e]; [|done].
  destruct (expProfile.setting p) as [s|]; [|done].
  rewrite !(bind_reads_snd (get_opts s)) by apply reads_get_opts.
  rewrite get_opts_agree. destruct (get_opts _ w).2 as [so|e]; [|done].
  rewrite !(bind_reads_snd (expSetting.list_items _))
    by apply reads_list_items.
  rewrite list_items_agree.
  destruct (expSetting.list_items _ w).2 as [items|e]; [|done].
  rewrite !(bind_reads_snd (mapM get_opts items))
    by apply reads_mapM, reads_get_opts.
  rewrite (mapM_agree get_opts) by auto using reads_get_opts, get_opts_agree.
  by destruct (mapM get_opts items w).2.
Qed.

Lemma message_agree (o : options) :
  (expProfile.message o w').2 = (expProfile.message o w).2.
Proof.
  unfold expProfile.message.
  rewrite !bind_reads_snd by apply reads_rendered.
  unfold expProfile.rendered.
  rewrite (mapM_agree Option.__str__) by auto using reads_str, str_agree.
  by destruct (mapM Option.__str__ _ w).2.
Qed.

Lemma fingerprint_agree p :
  (expProfile.fingerprint p w').2 = (expProfile.fingerprint p w).2.
Proof.
  unfold expProfile.fingerprint.
  rewrite !bind_reads_snd by apply reads_get_options.
  rewrite get_options_agree.
  destruct (expProfile.get_options p w).2 as [o|e]; [|done].
  rewrite !bind_reads_snd by apply reads_message.
  rewrite message_agree. by destruct (expProfile.message o w).2.
Qed.

End Agree.

(** X18. The fingerprint of a profile reads the dictionaries of the
    option objects, the [_opts] of the instances and the items of the
    lists, and nothing else: in two worlds that agree on these, whatever
    the values of the metrics, the bindings of the settings, the files and
    the log, a profile has the same options and the same fingerprint. *)
Theorem fingerprint_reads_options_only p w w' :
  facet_of <$> heap (store w) = facet_of <$> heap (store w') →
  expProfile.fingerprint p w' = (w', (expProfile.fingerprint p w).2)
  ∧ (expProfile.get_options p w').2 = (expProfile.get_options p w).2.
Proof.
  intros Hf. split; [|by apply get_options_agree].
  apply reads_eq; [apply reads_fingerprint|]. by apply fingerprint_agree.
Qed.

Lemma setup_facets (s d m ms : ref) w w1 :
  expSetting.setup s d m ms w = (w1, Ok tt) →
  facet_of <$> heap (store w) = facet_of <$> heap (store w1).
Proof.
  unfold expSetting.setup, bind, load.
  destruct (heap (store w) !! s) as [[]|] eqn:Hs; try done.
  intros [= <-]. simpl. rewrite fmap_insert. simpl.
  symmetry. apply insert_id. by rewrite lookup_fmap, Hs.
Qed.

(** X19. Binding a setting changes no fingerprint: the file name that
    [run] computes before [setup] is the one it would compute after. *)
Theorem setup_keeps_every_fingerprint (s d m ms : ref) w w1 p :
  expSetting.setup s d m ms w = (w1, Ok tt) →
  expProfile.fingerprint p w1 = (w1, (expProfile.fingerprint p w).2).
Proof.
  intros Hsetup. apply reads_eq; [apply reads_fingerprint|].
  apply fingerprint_agree. by eapply setup_facets.
Qed.

End FingerprintReads.

(** ** The directories a run checks *)

Section DirectoryChecks.

Context `{Collaborators}.

Implicit Types (w : World) (pool : expPool.t).

Lemma quiet_reads {A} (c : M A) : reads c → quiet c.
Proof. intros Hc w. by rewrite Hc. Qed.

Lemma quiet_bind {A B} (c : M A) (k : A → M B) :
  quiet c → (∀ a, quiet (k a)) → quiet (bind c k).
Proof.
  intros Hc Hk w. unfold bind. specialize (Hc w).
  destruct (c w) as [w1 [a|e]]; simpl in *; [|done]. by rewrite Hk.
Qed.

Lemma quiet_alloc (o : obj) : quiet (alloc o).
Proof. done. Qed.

Lemma quiet_assign (r : ref) (o : obj) : quiet (assign r o).
Proof. done. Qed.

Lemma quiet_logging (l : level) (m : string) (e : option exn) :
  quiet (logging l m e).
Proof. done. Qed.

Lemma quiet_getDefaultOption (name : string) : quiet (getDefaultOption name).
Proof.
  apply quiet_bind; [|intros d; apply quiet_alloc].
  destruct (config_items name) as [[|item items]|];
    try (apply quiet_reads; done).
  apply quiet_bind; [apply quiet_logging|intros _; by apply quiet_reads].
Qed.

Lemma quiet_update (self : ref) (kw : kwargs) : quiet (Option.update self kw).
Proof.
  apply quiet_bind.
  { apply quiet_reads, reads_bind; [apply reads_load|].
    intros []; first [apply reads_ret | apply reads_raise]. }
  intros d. destruct (Option.update_loop d kw) as [d' [[]|e]];
    (apply quiet_bind; [apply quiet_assign|intros _; by apply quiet_reads]).
Qed.

Lemma quiet_new (cls : string) (kw : kwargs) : quiet (expBase.new cls kw).
Proof.
  apply quiet_bind; [|intros opts; apply quiet_alloc].
  apply quiet_bind; [apply quiet_getDefaultOption|intros opts].
  apply quiet_bind; [apply quiet_update|intros _; by apply quiet_reads].
Qed.

Lemma drain_calls (cls : string) (pending : list kwargs) w :
  calls (expEnsemble.drain cls pending w).1.1 = calls w.
Proof.
  revert w. induction pending as [|para pending IH]; intros w; [done|].
  simpl. pose proof (quiet_new cls para w) as Hnew.
  destruct (expBase.new cls para w) as [w1 [x|e]]; simpl in *; [|done].
  specialize (IH w1). destruct (expEnsemble.drain cls pending w1) as [[w2 rest] r].
  simpl in *. congruence.
Qed.

Lemma chain_calls (sources : list expEnsemble.source) w :
  calls (expEnsemble.chain sources w).1.1 = calls w.
Proof.
  revert w. induction sources as [|s sources IH]; intros w; [done|].
  simpl. pose proof (drain_calls (expEnsemble.factory s) (expEnsemble.pending s) w)
    as Hd.
  destruct (expEnsemble.drain _ _ w) as [[w1 rest] [xs|e]]; simpl in *; [|done].
  specialize (IH w1). destruct (expEnsemble.chain sources w1) as [[w2 ss] r].
  simpl in *. congruence.
Qed.

Lemma iter_calls (e : expEnsemble.t) w :
  calls (expEnsemble.__iter__ e w).1.1 = calls w.
Proof.
  unfold expEnsemble.__iter__.
  pose proof (chain_calls (expEnsemble.models e) w) as Hm.
  destruct (expEnsemble.chain (expEnsemble.models e) w) as [[w1 ms] [xs|x]];
    simpl in *; [|done].
  pose proof (chain_calls (expEnsemble.datasets e) w1) as Hd.
  destruct (expEnsemble.chain (expEnsemble.datasets e) w1) as [[w2 ds] r].
  simpl in *. congruence.
Qed.

Lemma flatten_calls (ts : list expPool.task) w :
  calls (expPool.flatten ts w).1.1 = calls w.
Proof.
  revert w. induction ts as [|[p|e] ts IH]; intros w; [done|..]; simpl.
  - specialize (IH w). by destruct (expPool.flatten ts w) as [[w1 ts1] r].
  - pose proof (iter_calls e w) as He.
    destruct (expEnsemble.__iter__ e w) as [[w1 e1] [ps|x]]; simpl in *; [|done].
    specialize (IH w1). destruct (expPool.flatten ts w1) as [[w2 ts2] r].
    simpl in *. congruence.
Qed.

(** *** What a run calls *)

Lemma checks_nothing_quiet {A} (c : M A) : quiet c → checks_nothing c.
Proof. intros Hc w. exists []. by rewrite Hc, app_nil_r. Qed.

Lemma checks_nothing_bind {A B} (c : M A) (k : A → M B) :
  checks_nothing c → (∀ a, checks_nothing (k a)) → checks_nothing (bind c k).
Proof.
  intros Hc Hk w. unfold bind. destruct (Hc w) as (l1 & Hl1 & HP1).
  destruct (c w) as [w1 [a|e]]; simpl in *; [|eauto].
  destruct (Hk a w1) as (l2 & Hl2 & HP2). exists (l1 ++ l2).
  split; [by rewrite Hl2, Hl1, app_assoc|by apply Forall_app].
Qed.

Lemma checks_nothing_record (c : call) :
  is_check c = false → checks_nothing (record_call c).
Proof. intros Hc w. exists [c]. split; [done|by constructor]. Qed.

Lemma checks_nothing_extern {A} (f : Store → Store * outcome A) :
  checks_nothing (extern f).
Proof.
  apply checks_nothing_quiet. intros w. unfold extern.
  by destruct (f (store w)).
Qed.

Lemma checks_nothing_try {A} (c : M A) (handles : exn → bool) (h : exn → M A) :
  checks_nothing c → (∀ e, checks_nothing (h e)) →
  checks_nothing (try_except c handles h).
Proof.
  intros Hc Hh w. unfold try_except. destruct (Hc w) as (l1 & Hl1 & HP1).
  destruct (c w) as [w1 [a|e]]; simpl in *; [eauto|].
  destruct (handles e); [|eauto].
  destruct (Hh e w1) as (l2 & Hl2 & HP2). exists (l1 ++ l2).
  split; [by rewrite Hl2, Hl1, app_assoc|by apply Forall_app].
Qed.

Lemma checks_nothing_run_and_save (p : expProfile.t) (o : options)
    (filename : string) :
  checks_nothing (expProfile.run_and_save p o filename).
Proof.
  unfold expProfile.run_and_save.
  destruct (expProfile.setting p) as [s|];
    [|by apply checks_nothing_quiet, quiet_reads].
  apply checks_nothing_bind; [by apply checks_nothing_record|intros _].
  apply checks_nothing_bind; [|intros _].
  { apply checks_nothing_quiet, quiet_bind;
      [apply quiet_reads, reads_load|].
    intros []; first [apply quiet_assign | by apply quiet_reads]. }
  apply checks_nothing_bind; [by apply checks_nothing_record|intros _].
  apply checks_nothing_bind; [apply checks_nothing_extern|intros v].
  apply checks_nothing_bind; [|intros mr].
  { apply checks_nothing_quiet, quiet_reads, reads_get_metrics_result. }
  apply checks_nothing_try;
    [|intros e; apply checks_nothing_quiet, quiet_logging].
  apply checks_nothing_bind; [by apply checks_nothing_record|intros _].
  apply checks_nothing_bind; [apply checks_nothing_extern|intros _].
  apply checks_nothing_quiet, quiet_logging.
Qed.

Lemma checks_nothing_run (p : expProfile.t) : checks_nothing (expProfile.run p).
Proof.
  unfold expProfile.run.
  apply checks_nothing_bind; [|intros o].
  { apply checks_nothing_quiet, quiet_reads, reads_get_options. }
  apply checks_nothing_bind; [|intros m].
  { apply checks_nothing_quiet, quiet_reads, reads_message. }
  apply checks_nothing_bind.
  { apply checks_nothing_quiet, quiet_reads.
    destruct (expProfile.overwrite p); [apply reads_ret|done]. }
  intros []; [apply checks_nothing_quiet, quiet_logging
             |apply checks_nothing_run_and_save].
Qed.

Lemma checks_nothing_wrapper (a : nat * expProfile.t) :
  checks_nothing (_wrapper a).
Proof.
  destruct a as [i p]. unfold _wrapper.
  apply checks_nothing_bind; [apply checks_nothing_quiet, quiet_logging|].
  intros _. apply checks_nothing_bind;
    [|intros _; apply checks_nothing_quiet, quiet_logging].
  apply checks_nothing_try; [apply checks_nothing_run|].
  intros e. apply checks_nothing_quiet, quiet_logging.
Qed.

Lemma checks_nothing_mapM {A B} (f : A → M B) (l : list A) :
  (∀ a, checks_nothing (f a)) → checks_nothing (mapM f l).
Proof.
  intros Hf. induction l as [|a l IH];
    [by apply checks_nothing_quiet, quiet_reads|].
  simpl. apply checks_nothing_bind; [done|intros y].
  apply checks_nothing_bind; [done|intros ys].
  by apply checks_nothing_quiet, quiet_reads.
Qed.

Lemma check_dirs_calls (ds : list string) w w1 (us : list unit) :
  mapM expPool.check_dir ds w = (w1, Ok us) →
  calls w1 = calls w ++ (CallCheckDir <$> ds).
Proof.
  revert w us. induction ds as [|d ds IH]; intros w us.
  - intros [= <- _]. by rewrite app_nil_r.
  - simpl. unfold bind at 1.
    destruct (expPool.check_dir d w) as [w2 [[]|e]] eqn:Hd; [|done].
    unfold bind at 1.
    destruct (mapM expPool.check_dir ds w2) as [w3 [us'|e]] eqn:Hds; [|done].
    intros [= <- _]. rewrite (IH _ _ Hds).
    unfold expPool.check_dir, bind, record_call, extern in Hd. simpl in Hd.
    destruct (_check_dir d (store w)) as [s' r]. injection Hd as <- _.
    simpl. by rewrite <- app_assoc.
Qed.

(** X20. A run of a pool that returns has called [_check_dir] once for
    each directory of the pool, before anything else, and never after; a
    directory shared by several tasks is checked once. *)
Theorem run_checks_each_directory_once pool w w' (pool' : expPool.t) :
  expPool.run pool w = (w', pool', Ok tt) →
  ∃ rest,
    calls w' = calls w ++ (CallCheckDir <$> elements (expPool.dirs pool)) ++ rest
    ∧ Forall (λ c, is_check c = false) rest
    ∧ NoDup (elements (expPool.dirs pool))
    ∧ ∀ d, d ∈ elements (expPool.dirs pool) ↔ d ∈ expPool.dirs pool.
Proof.
  unfold expPool.run.
  destruct (mapM expPool.check_dir _ w) as [w1 [us|x]] eqn:Hchecks; [|done].
  simpl.
  pose proof (flatten_calls (expPool.tasks pool)
    {| store := store w1;
       log := log w1 ++ [{| lvl := INFO;
                            msg := "# Experiments: "
                                   +:+ fmt_3d (expPool.__len__ pool);
                            exc_info := None |}];
       calls := calls w1 |}) as Hflat.
  destruct (expPool.flatten _ _) as [[w3 ts'] [ps|x]]; [|done].
  destruct (checks_nothing_mapM _wrapper (imap (λ i p, (i, p)) ps)
              checks_nothing_wrapper w3) as (rest & Hrest & Hnone).
  destruct (mapM _wrapper _ w3) as [w4 [u4|x]]; [|done].
  intros [= <- _]. exists rest. simpl in *.
  rewrite Hrest, Hflat, (check_dirs_calls _ _ _ _ Hchecks).
  split; [by rewrite <- app_assoc|]. split; [done|].
  split; [apply NoDup_elements|]. intros d. apply elem_of_elements.
Qed.

End DirectoryChecks.

(* ===================================================================== *)
(** * Part III: the theorems at concrete inputs                            *)
(* ===================================================================== *)

Section Concrete.

#[local] Existing Instance Demo.collab.

(** A conjunction of closed equations, each settled by evaluation. *)
Ltac by_computing :=
  repeat (apply conj; [vm_compute; reflexivity|]); vm_compute; reflexivity.

(** [update] on the default options of [expModelRidge], with a second key
    that is not a field. *)
Lemma update_overwrites_or_rejects_witness :
  let w := (getDefaultOption "expModelRidge" Demo.world).1 in
  ∃ d',
    Option.update 0 [("alpha", VInt 5); ("beta", VInt 7); ("name", VStr "x")] w
    = (set_heap (<[0 := OOption d']> (heap (store w))) w,
       Raise (KeyError "'beta' is not a valid parameter."))
    ∧ d' !! "alpha" = Some (VInt 5)
    ∧ d' !! "name" = Some (VStr "Ridge").
Proof.
  intros w.
  destruct (update_overwrites_or_rejects w 0
              (<["name" := VStr "Ridge"]> (<["alpha" := VInt 1]> ∅))
              [("alpha", VInt 5); ("beta", VInt 7); ("name", VStr "x")])
    as (_ & Hrej & _).
  - vm_compute. reflexivity.
  - compute_done.
  - destruct (Hrej [("alpha", VInt 5)] "beta" (VInt 7) [("name", VStr "x")])
      as (d' & Hrun & _ & Hin & Hout).
    + reflexivity.
    + intros k Hk. apply list_elem_of_singleton in Hk. subst k.
      vm_compute. eauto.
    + vm_compute. reflexivity.
    + exists d'. split; [exact Hrun|]. split.
      * apply Hin. left.
      * rewrite Hout; [vm_compute; reflexivity|].
        intros Hk. apply list_elem_of_singleton in Hk. discriminate Hk.
Defined.

(** Two profiles made of different objects in different worlds. *)
Lemma fingerprint_deterministic_witness :
  let w1 := (Demo.two_orders "expSettingHoldout" "acc" "f1" Demo.world).1 in
  let w2 := (Demo.twins Demo.world).1 in
  let p1 := Demo.profile_of 1 3 11 6 "out" false in
  let p2 := Demo.profile_of 14 16 24 19 "out" false in
  (Demo.twins Demo.world).2 = Ok (p1, p2)
  ∧ expProfile.fingerprint p1 w1 = (w1, Ok "51860b95612751da51bd6b7b8a1657f6")
  ∧ expProfile.fingerprint p2 w2 = (w2, Ok "51860b95612751da51bd6b7b8a1657f6").
Proof.
  intros w1 w2 p1 p2. split; [vm_compute; reflexivity|].
  destruct (fingerprint_deterministic p1 p2 w1 w2
              {| opt_dataset := 0; opt_model := 2; opt_setting := 4;
                 opt_metrics := [7; 9] |}
              {| opt_dataset := 13; opt_model := 15; opt_setting := 17;
                 opt_metrics := [20; 22] |}
              "Option(name=Toy)" "Option(alpha=3, name=Ridge)"
              "Option(name=Holdout)" ["Option(name=acc)"; "Option(name=f1)"])
    as (fp & Hfp & H1 & H2); try (vm_compute; reflexivity).
  assert (fp = "51860b95612751da51bd6b7b8a1657f6") as <-
    by (rewrite Hfp; vm_compute; reflexivity).
  split; [exact H1|exact H2].
Defined.

(** C8, the claim as stated, at two profiles that list the metrics named
    ["a);Option(name=a"] and ["a"] in the two orders: the two metric
    configurations differ, the orders differ, the fingerprints do not. *)
Lemma metric_order_counterexample :
  let script := Demo.two_orders "expSettingHoldout" "a);Option(name=a" "a" in
  let w := (script Demo.world).1 in
  let p1 := Demo.profile_of 1 3 11 6 "out" false in
  let p2 := Demo.profile_of 1 3 12 6 "out" false in
  script Demo.world = (w, Ok (p1, p2))
  ∧ expSetting.list_items 11 w = (w, Ok [8; 10])
  ∧ expSetting.list_items 12 w = (w, Ok [10; 8])
  ∧ (opts <- get_opts 8 ;; Option.__str__ opts) w
    = (w, Ok "Option(name=a);Option(name=a)")
  ∧ (opts <- get_opts 10 ;; Option.__str__ opts) w = (w, Ok "Option(name=a)")
  ∧ expProfile.fingerprint p1 w = (w, Ok "3958bd0843b0e7797d3c8b2958ab93ed")
  ∧ expProfile.fingerprint p2 w = (w, Ok "3958bd0843b0e7797d3c8b2958ab93ed").
Proof. by_computing. Qed.

(** The amended C8 at the metrics named ["acc"] and ["f1"]. *)
Lemma reordering_changes_message_witness :
  let w := (Demo.two_orders "expSettingHoldout" "acc" "f1" Demo.world).1 in
  let p1 := Demo.profile_of 1 3 11 6 "out" false in
  let p2 := Demo.profile_of 1 3 12 6 "out" false in
  ∃ m1 m2,
    m1 ≠ m2
    ∧ expProfile.fingerprint p1 w = (w, Ok (MD5.hexdigest m1))
    ∧ expProfile.fingerprint p2 w = (w, Ok (MD5.hexdigest m2)).
Proof.
  intros w p1 p2.
  destruct (reordering_changes_message p1 p2 w
              {| opt_dataset := 0; opt_model := 2; opt_setting := 4;
                 opt_metrics := [7; 9] |}
              {| opt_dataset := 0; opt_model := 2; opt_setting := 4;
                 opt_metrics := [9; 7] |}
              "Option(name=Toy)" "Option(alpha=3, name=Ridge)"
              "Option(name=Holdout)"
              ["Option(name=acc)"; "Option(name=f1)"]
              ["Option(name=f1)"; "Option(name=acc)"])
    as (m1 & m2 & _ & _ & Hne & H1 & H2).
  - vm_compute. reflexivity.
  - vm_compute. reflexivity.
  - vm_compute. reflexivity.
  - vm_compute. reflexivity.
  - apply perm_swap.
  - discriminate.
  - repeat (apply Forall_cons; split; [unfold free_of; compute_done|]).
    apply Forall_nil_2.
  - exists m1, m2. exact (conj Hne (conj H1 H2)).
Defined.


(** The same run on a full disk: [savepkl] raises [IOError]. *)
Lemma save_failure_is_contained_witness :
  let w :=
    Demo.full (Demo.two_orders "expSettingHoldout" "acc" "f1" Demo.world).1 in
  let p := Demo.profile_of 1 3 11 6 "out" false in
  let res :=
    {| Options := {| opt_dataset := 0; opt_model := 2; opt_setting := 4;
                     opt_metrics := [7; 9] |};
       Metrics := [(7, [VInt 1]); (9, [VInt 1])]; Others := VNone |} in
  let saved := (expProfile.run p w).1 in
  expProfile.run p w
  = ({| store := store saved;
        log := log w ++ [{| lvl := ERROR;
                            msg := "IOError when saving 'out/51860b95612751da51bd6b7b8a1657f6'";
                            exc_info := None |}];
        calls := calls w ++ [CallSetup 6 1 3 11; CallRun 6;
                             CallSave res "out/51860b95612751da51bd6b7b8a1657f6"] |},
     Ok tt).
Proof.
  intros w p res saved.
  destruct (save_failure_is_contained p w
              {| opt_dataset := 0; opt_model := 2; opt_setting := 4;
                 opt_metrics := [7; 9] |}
              "Option(name=Toy);Option(alpha=3, name=Ridge);Option(name=Holdout);Option(name=acc);Option(name=f1)"
              6 "expSettingHoldout" 4 None None 5)
    as (Hio & _ & _).
  - vm_compute. reflexivity.
  - vm_compute. reflexivity.
  - reflexivity.
  - vm_compute. reflexivity.
  - right. vm_compute. reflexivity.
  - rewrite (Hio (store saved) VNone [(7, [VInt 1]); (9, [VInt 1])]
                 (store saved)).
    + vm_compute. reflexivity.
    + vm_compute. reflexivity.
    + vm_compute. reflexivity.
    + vm_compute. reflexivity.
Defined.

(** C5, the claim as stated, at a model grid of two different parameter
    sets and a dataset grid of three different parameter sets: six profiles
    are yielded, and the second and the fourth have one fingerprint. *)
Lemma distinct_grids_counterexample :
  let script :=
    Demo.ensemble "expSettingHoldout" "expModelTree"
      (Demo.named ["z"; "y);Option(name=z"])
      (Demo.named ["x"; "x);Option(name=y"; "w"]) in
  let w := (Demo.iterate script Demo.world).1 in
  let ps := Demo.profiles_of (Demo.iterate script Demo.world).2 in
  let p := Demo.profile_of 13 7 0 3 "out" false in
  let q := Demo.profile_of 11 9 0 3 "out" false in
  length ps = 6
  ∧ ps !! 1 = Some p
  ∧ ps !! 3 = Some q
  ∧ expProfile.fingerprint p w = (w, Ok "c52206a87ac8e75b0a66045699388723")
  ∧ expProfile.fingerprint q w = (w, Ok "c52206a87ac8e75b0a66045699388723").
Proof. by_computing. Qed.

(** The amended C5 at grids of two and of three names. *)
Lemma iteration_is_cross_product_witness :
  let script :=
    Demo.ensemble "expSettingHoldout" "expModelRidge"
      (Demo.named ["a"; "b"]) (Demo.named ["x"; "y"; "z"]) in
  let w := (script Demo.world).1 in
  let e := Demo.ensemble_of (script Demo.world).2 in
  let ps := Demo.profiles_of (Demo.iterate script Demo.world).2 in
  expEnsemble.__len__ e = 6 ∧ length ps = 6.
Proof.
  intros script w e ps.
  destruct (iteration_is_cross_product e w
              (expEnsemble.__iter__ e w).1.1 (expEnsemble.__iter__ e w).1.2 ps)
    as (ms & ds & _ & _ & _ & _ & _ & Hsix & _).
  - vm_compute. reflexivity.
  - apply (Hsix (expEnsemble.set_setting Demo.no_ensemble 3)
                "expModelRidge" [[("name", VStr "a")]; [("name", VStr "b")]]
                "expDatasetToy"
                [[("name", VStr "x")]; [("name", VStr "y")]; [("name", VStr "z")]]);
      vm_compute; reflexivity.
Defined.

(** C9, the claim as stated, at an ensemble of one model class and one
    dataset class without grids: the first iteration yields one profile,
    the second none. *)
Lemma second_iteration_counterexample :
  let script := Demo.ensemble "expSettingHoldout" "expModelRidge" None None in
  let w := (script Demo.world).1 in
  let e := Demo.ensemble_of (script Demo.world).2 in
  let first := expEnsemble.__iter__ e w in
  expEnsemble.__len__ e = 1
  ∧ first.2 = Ok [Demo.profile_of 9 7 0 3 "out" false]
  ∧ (expEnsemble.__iter__ first.1.2 first.1.1).2 = Ok [].
Proof. by_computing. Qed.

(** The amended C9 at the same ensemble. *)
Lemma iteration_consumes_sources_witness :
  let script := Demo.ensemble "expSettingHoldout" "expModelRidge" None None in
  let w := (script Demo.world).1 in
  let e := Demo.ensemble_of (script Demo.world).2 in
  let w1 := (expEnsemble.__iter__ e w).1.1 in
  let e1 := (expEnsemble.__iter__ e w).1.2 in
  expEnsemble.__iter__ e1 w1 = (w1, e1, Ok [])
  ∧ expEnsemble.__len__ e1 = expEnsemble.__len__ e.
Proof.
  intros script w e w1 e1.
  apply (iteration_consumes_sources e w w1 e1
           [Demo.profile_of 9 7 0 3 "out" false]).
  vm_compute. reflexivity.
Defined.

(** The six profiles of the two-by-three ensemble hold its metrics list. *)
Lemma profiles_share_metrics_witness :
  let script :=
    Demo.ensemble "expSettingHoldout" "expModelRidge"
      (Demo.named ["a"; "b"]) (Demo.named ["x"; "y"; "z"]) in
  let e := Demo.ensemble_of (script Demo.world).2 in
  let ps := Demo.profiles_of (Demo.iterate script Demo.world).2 in
  Forall (λ p, expProfile.metrics p = expEnsemble.metrics e) ps.
Proof.
  intros script e ps.
  destruct (profiles_share_metrics e (script Demo.world).1
              (expEnsemble.__iter__ e (script Demo.world).1).1.1
              (expEnsemble.__iter__ e (script Demo.world).1).1.2 ps)
    as (Hshared & _).
  - vm_compute. reflexivity.
  - apply Forall_forall. exact Hshared.
Defined.

(** The values of one metric across two runs: the record saved for the
    second profile holds the value recorded during the first run too. *)
Example values_accumulate_across_profiles :
  let script :=
    Demo.ensemble "expSettingHoldout" "expModelRidge"
      (Demo.named ["a"; "b"]) (Demo.named ["x"; "y"; "z"]) in
  let w := (Demo.iterate script Demo.world).1 in
  let p := Demo.profile_of 11 7 0 3 "out" false in
  let q := Demo.profile_of 13 7 0 3 "out" false in
  let w1 := (expProfile.run p w).1 in
  let w2 := (expProfile.run q w1).1 in
  calls w2
  = [CallSetup 3 11 7 0; CallRun 3;
     CallSave {| Options := {| opt_dataset := 10; opt_model := 6;
                               opt_setting := 1; opt_metrics := [4] |};
                 Metrics := [(4, [VInt 1])]; Others := VNone |}
              "out/2975727f9c9d758527d4a6f5202551ad";
     CallSetup 3 13 7 0; CallRun 3;
     CallSave {| Options := {| opt_dataset := 12; opt_model := 6;
                               opt_setting := 1; opt_metrics := [4] |};
                 Metrics := [(4, [VInt 1; VInt 1])]; Others := VNone |}
              "out/e9a8788a1fe08f9b6b67aa14c27b049f"].
Proof. by_computing. Qed.

(** C3. A pool of two profiles, the first with a setting whose run raises:
    [run] returns normally and the second profile is run and saved, but the
    error record of the first task has the format string for message; the
    index of the task is not in it. *)
Theorem failed_task_is_logged_without_index :
  let w := (Demo.batch Demo.world).1 in
  let pool := Demo.pool_of (Demo.batch Demo.world).2 in
  expPool.tasks pool
  = [expPool.Single (Demo.profile_of 1 3 11 6 "out" false);
     expPool.Single (Demo.profile_of 14 16 24 19 "out" false)]
  ∧ (expPool.run pool w).2 = Ok tt
  ∧ log (expPool.run pool w).1.1
    = log w
      ++ [{| lvl := INFO; msg := "# Experiments:   2"; exc_info := None |};
          {| lvl := INFO; msg := "Exp   0 Begins..."; exc_info := None |};
          {| lvl := ERROR; msg := "Exp %3d:";
             exc_info := Some (OtherError "broken") |};
          {| lvl := INFO; msg := "Exp   0 Done!"; exc_info := None |};
          {| lvl := INFO; msg := "Exp   1 Begins..."; exc_info := None |};
          {| lvl := INFO;
             msg := "'out/51860b95612751da51bd6b7b8a1657f6' saved.";
             exc_info := None |};
          {| lvl := INFO; msg := "Exp   1 Done!"; exc_info := None |};
          {| lvl := INFO; msg := "All Experiments are Done!";
             exc_info := None |}].
Proof. by_computing. Qed.

(** ** Further properties at concrete inputs *)

(** The default options of [expModelRidge] in the empty world. *)
Lemma default_option_has_name_witness :
  ∃ d n,
    heap (store Demo.world) !! 0 = None
    ∧ heap (store (getDefaultOption "expModelRidge" Demo.world).1) !! 0
      = Some (OOption d)
    ∧ d !! "name" = Some (VStr (str_drop n "expModelRidge"))
    ∧ ∀ k, k ≠ "name" →
        d !! k
        = Option.dict_update ∅ (default [] (config_items "expModelRidge")) !! k.
Proof.
  apply (default_option_has_name "expModelRidge" Demo.world
           (getDefaultOption "expModelRidge" Demo.world).1 0).
  vm_compute. reflexivity.
Defined.

(** A class whose section of defaults has no item. *)
Lemma empty_section_cannot_be_instantiated_witness :
  @getDefaultOption Edge.collab "expModelBare" Demo.world
  = (Demo.world, Raise ValueError)
  ∧ @expBase.new Edge.collab "expModelBare" [("alpha", VInt 1)] Demo.world
    = (Demo.world, Raise ValueError)
  ∧ @expMetric.__init__ Edge.collab "expModelBare" [("alpha", VInt 1)]
      Demo.world
    = (Demo.world, Raise ValueError)
  ∧ @expSetting.__init__ Edge.collab "expModelBare" [("alpha", VInt 1)]
      Demo.world
    = (Demo.world, Raise ValueError).
Proof.
  apply (@empty_section_cannot_be_instantiated Edge.collab "expModelBare"
           [("alpha", VInt 1)] Demo.world).
  vm_compute. reflexivity.
Defined.

(** The class [expModelRidge]: prefix [exp], role [Model], name [Ridge]. *)
Lemma well_named_class_gets_its_suffix_witness :
  ∃ d,
    heap (store (getDefaultOption "expModelRidge" Demo.world).1) !! 0
    = Some (OOption d)
    ∧ d !! "name" = Some (VStr "Ridge").
Proof.
  apply (well_named_class_gets_its_suffix "exp" "Model" "Ridge" Demo.world
           (getDefaultOption "expModelRidge" Demo.world).1 0).
  - reflexivity.
  - compute_done.
  - compute_done.
  - vm_compute. reflexivity.
Defined.

(** A name without a role, and a name with two. *)
Lemma roles_are_stripped_one_after_the_other_witness :
  foldl strip_role "Ridge" roles = "Ridge"
  ∧ foldl strip_role "expDatasetexpModelFoo" roles
    = foldl strip_role "Foo" ["Metric"; "Setting"].
Proof.
  apply (roles_are_stripped_one_after_the_other "Ridge" "exp" "exp" "Foo").
  - reflexivity.
  - reflexivity.
  - compute_done.
Defined.

(** [expModelRidge(alpha=5, beta=7)]: [alpha] is written before [beta] is
    refused. *)
Lemma new_rejects_unknown_keyword_witness :
  let kw := [("alpha", VInt 5); ("beta", VInt 7)] in
  let d := <["name" := VStr "Ridge"]> (<["alpha" := VInt 1]> ∅) in
  (expBase.new "expModelRidge" kw Demo.world).2
  = Raise (KeyError ("'" +:+ "beta" +:+ "' is not a valid parameter."))
  ∧ heap (store (expBase.new "expModelRidge" kw Demo.world).1)
    = <[fresh (dom (heap (store Demo.world))) :=
          OOption (Option.dict_update d [("alpha", VInt 5)])]>
        (heap (store Demo.world))
  ∧ files (store (expBase.new "expModelRidge" kw Demo.world).1)
    = files (store Demo.world)
  ∧ calls (expBase.new "expModelRidge" kw Demo.world).1 = calls Demo.world.
Proof.
  intros kw d.
  apply (new_rejects_unknown_keyword "expModelRidge" kw Demo.world d
           [("alpha", VInt 5)] [] "beta" (VInt 7)).
  - vm_compute. reflexivity.
  - reflexivity.
  - intros k Hk. apply list_elem_of_singleton in Hk. subst k.
    vm_compute. eauto.
  - vm_compute. reflexivity.
Defined.

(** [update(alpha=5, name='x')] and [update(name='x', alpha=5)]. *)
Lemma update_ignores_keyword_order_witness :
  let w := (getDefaultOption "expModelRidge" Demo.world).1 in
  Option.update 0 [("name", VStr "x"); ("alpha", VInt 5)] w
  = Option.update 0 [("alpha", VInt 5); ("name", VStr "x")] w.
Proof.
  intros w.
  apply (update_ignores_keyword_order w 0
           (<["name" := VStr "Ridge"]> (<["alpha" := VInt 1]> ∅))).
  - vm_compute. reflexivity.
  - compute_done.
  - apply perm_swap.
  - intros k Hk. apply elem_of_cons in Hk as [->|Hk];
      [|apply list_elem_of_singleton in Hk as ->]; vm_compute; eauto.
Defined.

(** The setting of [Demo.two_orders] bound to the list of its two
    metrics. *)
Lemma bound_metrics_are_reported_in_order_witness :
  let w := (Demo.two_orders "expSettingHoldout" "acc" "f1" Demo.world).1 in
  ∃ w1 res,
    expSetting.setup 6 1 3 11 w = (w1, Ok tt)
    ∧ expSetting.get_metrics_result 6 w1 = (w1, Ok res)
    ∧ Forall2 (is_metric w) [8; 10] res.
Proof.
  intros w.
  destruct (bound_metrics_are_reported_in_order w 6 1 3 11 [8; 10]
              "expSettingHoldout" 4 None None 5)
    as (w1 & Hsetup & _ & Hok & _).
  - vm_compute. reflexivity.
  - vm_compute. reflexivity.
  - destruct Hok as (res & Hres & Hall).
    + repeat (apply Forall_cons; split);
        [exists (7, []), "expMetricScore"; vm_compute; reflexivity
        |exists (9, []), "expMetricScore"; vm_compute; reflexivity
        |apply Forall_nil_2].
    + exists w1, res. exact (conj Hsetup (conj Hres Hall)).
Defined.

(** A new setting of class [expSettingHoldout]. *)
Lemma new_setting_is_unbound_witness :
  let w' := (expSetting.__init__ "expSettingHoldout" [] Demo.world).1 in
  ∃ opts metrics,
    heap (store w') !! 2
    = Some (OSetting "expSettingHoldout" opts None None metrics)
    ∧ heap (store w') !! metrics = Some (OList [])
    ∧ heap (store Demo.world) !! metrics = None
    ∧ heap (store Demo.world) !! 2 = None
    ∧ expSetting.get_metrics_result 2 w' = (w', Ok []).
Proof.
  intros w'.
  apply (new_setting_is_unbound "expSettingHoldout" [] Demo.world w' 2).
  vm_compute. reflexivity.
Defined.

(** The one profile of an ensemble without a setting. *)
Lemma profile_without_setting_cannot_run_witness :
  let w := (Edge.unset Demo.world).1 in
  let e := Demo.ensemble_of (Edge.unset Demo.world).2 in
  let p := {| expProfile.dataset := 4; expProfile.model := 2;
              expProfile.metrics := 0; expProfile.setting := None;
              expProfile.save_dir := "out"; expProfile.overwrite := false |} in
  (expEnsemble.__iter__ e w).2 = Ok [p]
  ∧ ∀ w1, expProfile.run p w1 = (w1, Raise AttributeError).
Proof.
  intros w e p. apply conj; [vm_compute; reflexivity|].
  pose proof (profile_without_setting_cannot_run e w
                (expEnsemble.__iter__ e w).1.1 (expEnsemble.__iter__ e w).1.2
                [p]) as Hall.
  intros w1. apply Forall_cons in Hall as [Hp _].
  - apply (Hp w1 0).
  - reflexivity.
  - vm_compute. reflexivity.
Defined.

(** A metric added to the ensemble of [Demo.ensemble] after it was
    iterated. *)
Lemma late_metrics_reach_yielded_profiles_witness :
  let script := Demo.ensemble "expSettingHoldout" "expModelRidge" None None in
  let w' := (Demo.iterate script Demo.world).1 in
  let e := Demo.ensemble_of (script Demo.world).2 in
  let e' := (expEnsemble.__iter__ e (script Demo.world).1).1.2 in
  let made := expMetric.__init__ "expMetricScore" [("name", VStr "f1")] w' in
  made.2 = Ok 11
  ∧ ∃ w'',
      expEnsemble.add_metrics e' [11] made.1 = (w'', Ok tt)
      ∧ Forall (λ p, expSetting.list_items (expProfile.metrics p) w''
                     = (w'', Ok ([5] ++ [11])))
          [Demo.profile_of 9 7 0 3 "out" false].
Proof.
  intros script w' e e' made. apply conj; [vm_compute; reflexivity|].
  apply (late_metrics_reach_yielded_profiles e (script Demo.world).1 w' e').
  - vm_compute. reflexivity.
  - vm_compute. reflexivity.
Defined.

(** A grid with a parameter that [expModelRidge] does not have. *)
Lemma bad_parameter_set_fails_the_iteration_witness :
  let script :=
    Demo.ensemble "expSettingHoldout" "expModelRidge"
      (Some [[("depth", VInt 3)]]) None in
  let e := Demo.ensemble_of (script Demo.world).2 in
  ∃ x, (expEnsemble.__iter__ e (script Demo.world).1).2 = Raise x.
Proof.
  intros script e.
  apply (bad_parameter_set_fails_the_iteration e (script Demo.world).1
           ("expModelRidge", [("depth", VInt 3)])).
  - vm_compute. left.
  - intros d Hd Hkn. destruct (Hkn "depth") as [x Hx]; [left|].
    assert (d = <["name" := VStr "Ridge"]> (<["alpha" := VInt 1]> ∅)) as ->.
    { apply (inj Some). rewrite <- Hd. vm_compute. reflexivity. }
    vm_compute in Hx. discriminate Hx.
Defined.

(** Two models by three datasets. *)
Lemma length_is_the_number_of_profiles_witness :
  let cs := [AddModel "expModelRidge" (Demo.named ["a"; "b"]);
             AddDataset "expDatasetToy" None;
             AddDataset "expDatasetToy" (Demo.named ["x"; "y"])] in
  let w1 := (expEnsemble.__init__ "out" false Demo.world).1 in
  let e := ensemble_script
             (Demo.ensemble_of (expEnsemble.__init__ "out" false Demo.world).2)
             cs in
  expEnsemble.__len__ e = 6
  ∧ length (Demo.profiles_of
              (Demo.iterate (λ w, (w, Ok e)) w1).2) = 6.
Proof.
  intros cs w1 e.
  destruct (length_is_the_number_of_profiles "out" false cs Demo.world w1
              (Demo.ensemble_of (expEnsemble.__init__ "out" false Demo.world).2)
              w1 (expEnsemble.__iter__ e w1).1.1 (expEnsemble.__iter__ e w1).1.2
              (Demo.profiles_of (Demo.iterate (λ w, (w, Ok e)) w1).2))
    as [Hlen _].
  - vm_compute. reflexivity.
  - vm_compute. reflexivity.
  - rewrite Hlen. apply conj; vm_compute; reflexivity.
Defined.

(** A pool of an ensemble and a profile, run once. *)
Lemma second_run_skips_ensembles_witness :
  let w := (Edge.mixed Demo.world).1 in
  let pool := Demo.pool_of (Edge.mixed Demo.world).2 in
  let pool1 := (expPool.run pool w).1.2 in
  expPool.__len__ pool = 3
  ∧ expPool.__len__ pool1 = expPool.__len__ pool
  ∧ ∀ w2, (expPool.flatten (expPool.tasks pool1) w2).2
          = Ok [Demo.profile_of 7 9 17 12 "out" false].
Proof.
  intros w pool pool1. apply conj; [vm_compute; reflexivity|].
  destruct (second_run_skips_ensembles pool w (expPool.run pool w).1.1 pool1)
    as (Hlen & _ & Hagain).
  - vm_compute. reflexivity.
  - apply conj; [exact Hlen|]. intros w2. rewrite Hagain.
    vm_compute. reflexivity.
Defined.

(** The world of [Demo.two_orders] before and after the run of its first
    profile: values were recorded, a file was saved, the setting was
    bound. *)
Lemma fingerprint_reads_options_only_witness :
  let w := (Demo.two_orders "expSettingHoldout" "acc" "f1" Demo.world).1 in
  let p := Demo.profile_of 1 3 11 6 "out" false in
  let w' := (expProfile.run p w).1 in
  heap (store w') ≠ heap (store w)
  ∧ expProfile.fingerprint p w' = (w', Ok "51860b95612751da51bd6b7b8a1657f6").
Proof.
  intros w p w'. apply conj; [vm_compute; discriminate|].
  destruct (fingerprint_reads_options_only p w w') as [-> _].
  - vm_compute. reflexivity.
  - vm_compute. reflexivity.
Defined.

(** The setting of [Demo.two_orders] bound to the second list. *)
Lemma setup_keeps_every_fingerprint_witness :
  let w := (Demo.two_orders "expSettingHoldout" "acc" "f1" Demo.world).1 in
  let p := Demo.profile_of 1 3 11 6 "out" false in
  let w1 := (expSetting.setup 6 1 3 12 w).1 in
  expProfile.fingerprint p w1 = (w1, Ok "51860b95612751da51bd6b7b8a1657f6").
Proof.
  intros w p w1.
  rewrite (setup_keeps_every_fingerprint 6 1 3 12 w w1 p).
  - vm_compute. reflexivity.
  - vm_compute. reflexivity.
Defined.

(** The two tasks of [Edge.mixed] share one directory. *)
Lemma run_checks_each_directory_once_witness :
  let w := (Edge.mixed Demo.world).1 in
  let pool := Demo.pool_of (Edge.mixed Demo.world).2 in
  ∃ rest,
    calls (expPool.run pool w).1.1 = calls w ++ [CallCheckDir "out"] ++ rest
    ∧ Forall (λ c, is_check c = false) rest.
Proof.
  intros w pool.
  destruct (run_checks_each_directory_once pool w (expPool.run pool w).1.1
              (expPool.run pool w).1.2)
    as (rest & Hcalls & Hnone & _).
  - vm_compute. reflexivity.
  - assert (elements (expPool.dirs pool) = ["out"]) as Hel
      by (vm_compute; reflexivity).
    rewrite Hel in Hcalls. exists rest. exact (conj Hcalls Hnone).
Defined.

End Concrete.
